(** * xo-cli: parameter parsing, session bootstrap and transfer dispatch

    A shallow embedding of the two variants of the command-line client:

    - [Simple]: [src/index.js], the earlier program (no [json:] values,
      value pattern [.*], base URL taken as it is);
    - [Rich]: [src/unnamed/part_000], the later program ([json:] values,
      value pattern [[^]*], [ws] to [http] rewrite of the base URL).

    Strings are Rocq strings holding the UTF-8 bytes of the JavaScript
    string; every character the program tests ([=], [-], [@], the ASCII
    letters) is a single byte in that encoding. The [params] object is an
    [object]: its own properties, a [gmap] from names to values, and its
    prototype, which an assignment to [__proto__] can change. Progress lines
    depend on the clock and are not part of a run; [printProgress] is a
    function of the sample it is given. *)

From Stdlib Require Import ZArith QArith Ascii String DecimalString Sorted.
From stdpp Require Import base option list strings gmap.

Set Warnings "-register-all".
Local Open Scope Z_scope.

(** ** JavaScript values *)

(** A JavaScript number, as far as the program looks at it: the program only
    tests numbers for truthiness, rounds them and scales them; finite values
    are idealised as rationals. *)
Inductive number : Type :=
| NaN
| Infinity (negative : bool)
| Finite (q : Q).

(** The values that travel through the program: parsed parameters, RPC
    results, fields of a progress sample. *)
Inductive value : Type :=
| VUndefined
| VNull
| VBool (b : bool)
| VNum (n : number)
| VStr (s : string)
| VArr (elements : list value)
| VObj (props : list (string * value)).

Definition number_is_zero (n : number) : bool :=
  match n with
  | Finite q => Qeq_bool q 0
  | _ => false
  end.

(** ToBoolean: [undefined], [null], [false], [0], [NaN] and the empty string
    are falsy; everything else, every object included, is truthy. *)
Definition truthy (v : value) : bool :=
  match v with
  | VUndefined | VNull => false
  | VBool b => b
  | VNum NaN => false
  | VNum n => negb (number_is_zero n)
  | VStr s => negb (String.eqb s "")
  | VArr _ | VObj _ => true
  end.

(** lodash [isObject]: true for objects and arrays, false for [null] and for
    primitives. *)
Definition isObject (v : value) : bool :=
  match v with
  | VArr _ | VObj _ => true
  | _ => false
  end.

(** Decimal rendering of an array index. *)
Definition index_key (i : nat) : string :=
  NilZero.string_of_uint (Nat.to_uint i).

(** lodash [keys]: the own enumerable property names; for an array these are
    its indices. The program only calls it behind [isObject]. *)
Definition getKeys (v : value) : list string :=
  match v with
  | VObj props => fst <$> props
  | VArr elements => index_key <$> seq 0 (length elements)
  | _ => []
  end.

Fixpoint assoc (key : string) (props : list (string * value)) : option value :=
  match props with
  | [] => None
  | (k, v) :: rest => if String.eqb k key then Some v else assoc key rest
  end.

(** Property read [v[key]]; a missing property reads as [undefined]. *)
Definition get_prop (v : value) (key : string) : value :=
  match v with
  | VObj props => default VUndefined (assoc key props)
  | VArr elements =>
      default VUndefined
        (snd <$> List.find (fun p => String.eqb (fst p) key)
           (zip (index_key <$> seq 0 (length elements)) elements))
  | _ => VUndefined
  end.

(** ** Objects the program builds *)

(** The prototype of an object that starts as the literal [{}]:
    [Object.prototype] at first; none, or an object or array that
    [JSON.parse] gave, once [__proto__] was assigned so. *)
Inductive prototype : Type :=
| ObjectPrototype
| NoPrototype
| Parsed (v : value).

(** A plain object: its own properties and its prototype. *)
Record object : Type := {
  properties : gmap string value;
  prototype_of : prototype
}.

(** [o !! key] is the own property, [<[ key := v ]> o] defines or
    overwrites an own property, [delete key o] is [delete o[key]], and the
    empty object is the literal [{}]. *)
Global Instance object_lookup : Lookup string value object := fun key o =>
  properties o !! key.
Global Instance object_insert : Insert string value object := fun key v o =>
  {| properties := <[ key := v ]> (properties o); prototype_of := prototype_of o |}.
Global Instance object_delete : Delete string object := fun key o =>
  {| properties := delete key (properties o); prototype_of := prototype_of o |}.
Global Instance object_empty : Empty object :=
  {| properties := ∅; prototype_of := ObjectPrototype |}.
Global Instance object_singleton : SingletonM string value object := fun key v =>
  <[ key := v ]> ∅.

(** Whether the search for [__proto__] along a prototype chain ends before
    the accessor of [Object.prototype]: the chain is empty, or the parsed
    object holds [__proto__] as a property of its own ([JSON.parse] defines
    every member as an own data property). An array holds none. *)
Definition hides_accessor (p : prototype) : bool :=
  match p with
  | ObjectPrototype => false
  | NoPrototype => true
  | Parsed (VObj props) =>
      match assoc "__proto__" props with
      | Some _ => true
      | None => false
      end
  | Parsed _ => false
  end.

(** The setter of [Object.prototype.__proto__] on [o]: an object or an
    array becomes the prototype, [null] removes it, any other value is
    ignored. *)
Definition set_prototype (v : value) (o : object) : object :=
  if isObject v then {| properties := properties o; prototype_of := Parsed v |}
  else
    match v with
    | VNull => {| properties := properties o; prototype_of := NoPrototype |}
    | _ => o
    end.

(** The assignment [o[name] = v]. The standard prototypes hold one setter,
    [__proto__]; every other name becomes, or stays, an own property, and
    so does [__proto__] when [o] has it already or when the accessor is out
    of reach. *)
Definition assign (name : string) (v : value) (o : object) : object :=
  if String.eqb name "__proto__" then
    match o !! name with
    | Some _ => <[ name := v ]> o
    | None =>
        if hides_accessor (prototype_of o) then <[ name := v ]> o
        else set_prototype v o
    end
  else <[ name := v ]> o.

(** The read [o[key]] of a key the standard prototypes do not hold: the
    own property, else the property of the parsed prototype, else
    [undefined]. *)
Definition get (key : string) (o : object) : value :=
  match o !! key with
  | Some v => v
  | None =>
      match prototype_of o with
      | Parsed p => get_prop p key
      | _ => VUndefined
      end
  end.

(** ** Failures *)

(** What the program throws or rejects with, named after the error kinds of
    the specification. The simple variant throws the bare message, the rich
    one wraps it in [Error]. *)
Inductive error : Type :=
| MalformedArgument (arg : string)  (* 'invalid arg: ' + arg *)
| InvalidJson                       (* SyntaxError of JSON.parse *)
| NotConfigured                     (* 'no server to connect to!' *)
| NotAuthenticated                  (* 'no token available' *)
| MissingCommandName                (* 'missing command name' *)
| LocalFileNotFound                 (* rejection of stat: no such file *)
| ConnectionFailed                  (* failure of the transport *)
| TransferFailed                    (* failure of an HTTP request or stream *)
| TypeError.                        (* a library called with a non-string, a call of what is no function *)

Inductive result (A : Type) : Type :=
| Ok (a : A)
| Err (e : error).
Arguments Ok {A} a.
Arguments Err {A} e.

(** ** String helpers *)

(** The double quote character. *)
Definition dquote : ascii := "034"%char.

(** [string.lastIndexOf(search, 0) === 0]: [search] is a prefix. *)
Definition _startsWith (string search : string) : bool :=
  String.prefix search string.

(** [s.slice(n)] for [n] within the string. *)
Fixpoint slice (n : nat) (s : string) : string :=
  match n, s with
  | O, _ => s
  | S n', String _ rest => slice n' rest
  | S _, EmptyString => EmptyString
  end.

(** Splits at the first [=]: the text before it and the text after it. *)
Fixpoint split_eq (s : string) : option (string * string) :=
  match s with
  | EmptyString => None
  | String c rest =>
      if Ascii.eqb c "="%char then Some (EmptyString, rest)
      else match split_eq rest with
           | Some (name, val) => Some (String c name, val)
           | None => None
           end
  end.

(** The line terminators that [.] refuses: LF, CR, U+2028 and U+2029 (the
    last two are the bytes E2 80 A8 and E2 80 A9 in UTF-8). *)
Fixpoint has_line_terminator (s : string) : bool :=
  match s with
  | EmptyString => false
  | String c rest =>
      if Ascii.eqb c "010"%char || Ascii.eqb c "013"%char then true
      else if Ascii.eqb c "226"%char
                && (String.prefix (String "128"%char (String "168"%char EmptyString)) rest
                    || String.prefix (String "128"%char (String "169"%char EmptyString)) rest)
      then true
      else has_line_terminator rest
  end.

Fixpoint no_eq (s : string) : Prop :=
  match s with
  | EmptyString => True
  | String c rest => c <> "="%char /\ no_eq rest
  end.

(** The token grammar read as a relation: [arg] is [name], then
    [=], then [val]; [name] is not empty and holds no [=]; [val] is
    anything. *)
Definition token_grammar (arg name val : string) : Prop :=
  arg = name +:+ String "="%char val /\ name <> EmptyString /\ no_eq name.

(** ** The world outside the program *)

(** Persisted credentials, as [config.load()] yields them; an absent key
    reads as [None]. *)
Record credentials : Type := {
  server : option string;
  token : option string
}.

(** [!x] is false exactly on a present, non-empty string. *)
Definition present (x : option string) : bool :=
  match x with
  | Some s => negb (String.eqb s "")
  | None => false
  end.

(** The transport object; [_url] is the private property the program reads. *)
Record Xo : Type := { _url : string }.

(** What the program asks of the outside world, in order. *)
Inductive event : Type :=
| EvNewXo (url : string)
| EvOpen (xo : Xo)
| EvSignIn (xo : Xo) (token : string)
| EvCall (xo : Xo) (method : string) (params : object)
| EvCreateWriteStream (path : string)
| EvGet (url : string)
| EvStat (path : string)
| EvCreateReadStream (path : string)
| EvPost (url : string) (content_length : Z) (body : string).

Definition is_network (ev : event) : bool :=
  match ev with
  | EvGet _ | EvPost _ _ _ => true
  | _ => false
  end.

(** The local state a run can read and change: persisted credentials, the
    files (path to contents), and the requests made so far. *)
Record world : Type := {
  config : credentials;
  files : gmap string string;
  trace : list event
}.

(** The external collaborators: built-ins and libraries whose answers the
    program depends on. *)
Record Env : Type := {
  (** [JSON.parse]; [None] is a SyntaxError. *)
  JSON_parse : string -> option value;
  (** [url.resolve(from, to)] on two strings. *)
  resolveUrl : string -> string -> string;
  (** The [_url] of a transport constructed on a server URL. *)
  Xo_url : string -> string;
  xo_open : Xo -> result unit;
  xo_signIn : Xo -> string -> result unit;
  xo_call : Xo -> string -> object -> result value;
  (** A GET: the bytes that arrived, and whether the stream finished. *)
  http_get : string -> string * bool;
  (** Whether the response to a GET carries a [content-length] header. *)
  http_declares_length : string -> bool;
  (** A POST of a body with a [content-length] header: the response body. *)
  http_post : string -> Z -> string -> result string;
  (** [Math.round(x)] and [x * 1e3] on JavaScript numbers. *)
  Math_round : value -> value;
  times_1e3 : value -> value;
  (** [humanFormat(x)] ([None]) and [humanFormat(x, opts)]. *)
  humanFormat : option (string * string) -> value -> string;
  prettyMs : value -> string;
  (** Names found on the prototype chain of a function object, which the
      [in] operator also answers for. *)
  inherited : string -> bool
}.

(** ** State and failure *)

Definition M (A : Type) : Type := world -> result A * world.

Global Instance result_ret : MRet result := fun _ a => Ok a.
Global Instance result_bind : MBind result := fun _ _ k m =>
  match m with
  | Ok a => k a
  | Err e => Err e
  end.

Global Instance result_fmap : FMap result := fun _ _ f m =>
  match m with
  | Ok a => Ok (f a)
  | Err e => Err e
  end.

Global Instance M_ret : MRet M := fun _ a w => (Ok a, w).
Global Instance M_bind : MBind M := fun _ _ k m w =>
  match m w with
  | (Ok a, w') => k a w'
  | (Err e, w') => (Err e, w')
  end.

Definition throw {A : Type} (e : error) : M A := fun w => (Err e, w).

Definition lift {A : Type} (r : result A) : M A := fun w => (r, w).

Definition emit (ev : event) : M unit := fun w =>
  (Ok tt, {| config := config w; files := files w; trace := trace w ++ [ev] |}).

Definition config_load : M credentials := fun w => (Ok (config w), w).

Definition write_file (path contents : string) : M unit := fun w =>
  (Ok tt, {| config := config w; files := <[path := contents]> (files w);
             trace := trace w |}).

Definition read_file (path : string) : M (option string) := fun w =>
  (Ok (files w !! path), w).

(** [forEach(args, f)] where [f] updates [params] or throws. *)
Fixpoint forEach (f : object -> string -> result object)
    (args : list string) (params : object) : result object :=
  match args with
  | [] => Ok params
  | arg :: rest =>
      match f params arg with
      | Ok params' => forEach f rest params'
      | Err e => Err e
      end
  end.

(** ** Pieces shared by both variants *)

Section Shared.
Variable env : Env.

(** [resolveUrl(baseUrl, result[key])]: [url.resolve] throws a TypeError
    on anything but a string. *)
Definition resolve (baseUrl : string) (to : value) : M string :=
  match to with
  | VStr path => mret (resolveUrl env baseUrl path)
  | _ => throw TypeError
  end.

(** [createWriteStream(file)]: creates or truncates the file. *)
Definition createWriteStream (file : value) : M string :=
  match file with
  | VStr path => emit (EvCreateWriteStream path) ;; write_file path "" ;; mret path
  | _ => throw TypeError
  end.

(** The download pipe: what arrives is written to the file; the promise
    resolves (with nothing) once the file is finished and rejects when the
    stream fails, leaving what was written. *)
Definition download (url output : string) : M value :=
  emit (EvGet url) ;;
  let '(received, finished) := http_get env url in
  write_file output received ;;
  if finished then mret VUndefined else throw TransferFailed.

(** The download pipe of the rich variant, which listens for the response:
    when it carries a [content-length] the listener calls
    [progress.length(length)], which is no function of the progress stream,
    and the TypeError ends the run before a byte is written; without the
    header the pipe runs as above. *)
Definition download_with_length (url output : string) : M value :=
  emit (EvGet url) ;;
  if http_declares_length env url then throw TypeError
  else
    let '(received, finished) := http_get env url in
    write_file output received ;;
    if finished then mret VUndefined else throw TransferFailed.

(** [stat(file)], read for [stats.size]: the size of the file; the promise
    is rejected when there is no such file. *)
Definition stat (file : value) : M Z :=
  match file with
  | VStr path =>
      emit (EvStat path) ;;
      contents ← read_file path ;
      match contents with
      | Some c => mret (Z.of_nat (String.length c))
      | None => throw LocalFileNotFound
      end
  | _ => throw TypeError
  end.

(** [createReadStream(file)]: the bytes of the file. *)
Definition createReadStream (file : value) : M string :=
  match file with
  | VStr path =>
      emit (EvCreateReadStream path) ;;
      contents ← read_file path ;
      match contents with
      | Some c => mret c
      | None => throw LocalFileNotFound
      end
  | _ => throw TypeError
  end.

(** The upload: the file is streamed as the body of a POST that carries
    [length] as [content-length]; the response body is the outcome. *)
Definition upload (url : string) (file : value) (length : Z) : M value :=
  input ← createReadStream file ;
  emit (EvPost url length input) ;;
  body ← lift (http_post env url length input) ;
  mret (VStr body).
End Shared.

(** [v === 'literal']: strict equality with a string literal. *)
Definition strict_eq_str (v : value) (literal : string) : bool :=
  match v with
  | VStr s => String.eqb s literal
  | _ => false
  end.

(** A call of [console.warn]: the format and the values that fill it. *)
Record warning : Type := {
  format : string;
  arguments : list value
}.

(** A progress sample of [progress-stream], as far as it is read. *)
Module Progress.
Record t : Type := {
  length : value;
  percentage : value;
  transferred : value;
  speed : value;
  eta : value
}.
End Progress.

Definition long_format : string := "%s% of %s @ %s/s - ETA %s".
Definition short_format : string := "%s @ %s/s".

(** The operations hung on [exports]. *)
Inductive operation : Type :=
| OpHelp
| OpRegister
| OpUnregister
| OpListCommands
| OpListObjects
| OpCall.

(** The operations of [exports], as the assignments [exports.x = x] build
    them. *)
Definition exports : list (string * operation) :=
  [("help", OpHelp); ("register", OpRegister); ("unregister", OpUnregister);
   ("listCommands", OpListCommands); ("listObjects", OpListObjects);
   ("call", OpCall)].

Fixpoint own (name : string) (table : list (string * operation))
    : option operation :=
  match table with
  | [] => None
  | (k, op) :: rest => if String.eqb k name then Some op else own name rest
  end.

(** [exports] is the function [main] itself, so [in] also answers for the
    properties every function object has. *)
Definition function_properties : list string :=
  ["length"; "name"; "prototype"; "arguments"; "caller"].

(** What [main] hands over to. *)
Inductive dispatch : Type :=
| RunHelp                                            (* help() *)
| RunOwn (op : operation) (args : list string)       (* exports[fnName](args.slice(1)) *)
| RunInherited (name : string) (args : list string)  (* the same, on a property that is no operation *)
| RunCall (args : list string).                      (* exports.call(args) *)

(** [\w]: an ASCII letter, a digit or the underscore. *)
Definition is_word (c : ascii) : bool :=
  let n := nat_of_ascii c in
  ((48 <=? n) && (n <=? 57) || (65 <=? n) && (n <=? 90)
   || (97 <=? n) && (n <=? 122) || (n =? 95))%nat.

(** [toUpperCase] on one word character. *)
Definition toUpperCase (c : ascii) : ascii :=
  let n := nat_of_ascii c in
  if ((97 <=? n) && (n <=? 122))%nat then ascii_of_nat (n - 32) else c.

(** The [-\w] alternative of the replacement, applied from left to right:
    a dash followed by a word character becomes that character in upper
    case. *)
Fixpoint replace_dash_word (s : string) : string :=
  match s with
  | EmptyString => EmptyString
  | String c rest =>
      match rest with
      | String d rest' =>
          if Ascii.eqb c "-"%char && is_word d
          then String (toUpperCase d) (replace_dash_word rest')
          else String c (replace_dash_word rest)
      | EmptyString => String c EmptyString
      end
  end.

(** [arg.replace(/^--|-\w/g, ...)]: a leading [--] is dropped, then every
    [-\w] is replaced. *)
Definition camelCase (arg : string) : string :=
  match arg with
  | String "-"%char (String "-"%char rest) => replace_dash_word rest
  | _ => replace_dash_word arg
  end.

(** [s.replace(/^ws/, 'http')]. *)
Definition replace_ws (s : string) : string :=
  match s with
  | String "w"%char (String "s"%char rest) => "http" +:+ rest
  | _ => s
  end.

(** ** The listing of commands *)

(** What [system.getMethodsInfo] tells about one parameter and about one
    method, in the shape the transport documents; an absent property reads
    as [None]. *)
Module Param.
Record t : Type := {
  type : option string;
  optional : bool
}.
End Param.

Module Method.
Record t : Type := {
  params : list (string * Param.t);
  description : option string
}.
End Method.

(** [x || fallback] on a string that may be absent: the empty string is
    falsy too. *)
Definition or_else (x : option string) (fallback : string) : string :=
  match x with
  | Some s => if String.eqb s "" then fallback else s
  | None => fallback
  end.

(** The UTF-16 code units of a string held as well-formed UTF-8: one unit
    for a character of one, two or three bytes, a surrogate pair for one of
    four bytes; a byte that starts no character reads as U+FFFD. *)
Fixpoint utf16 (s : string) : list N :=
  let low c := (N_of_ascii c mod 64)%N in
  match s with
  | EmptyString => []
  | String c rest =>
      let b := N_of_ascii c in
      if (b <? 128)%N then b :: utf16 rest
      else if (b <? 192)%N then 65533%N :: utf16 rest
      else if (b <? 224)%N then
        match rest with
        | String c1 rest1 => ((b mod 32) * 64 + low c1)%N :: utf16 rest1
        | _ => [65533%N]
        end
      else if (b <? 240)%N then
        match rest with
        | String c1 (String c2 rest2) =>
            ((b mod 16) * 4096 + low c1 * 64 + low c2)%N :: utf16 rest2
        | _ => [65533%N]
        end
      else if (b <? 248)%N then
        match rest with
        | String c1 (String c2 (String c3 rest3)) =>
            let point := ((b mod 8) * 262144 + low c1 * 4096
                          + low c2 * 64 + low c3)%N in
            let offset := (point - 65536)%N in
            (55296 + offset / 1024)%N :: (56320 + offset mod 1024)%N
              :: utf16 rest3
        | _ => [65533%N]
        end
      else 65533%N :: utf16 rest
  end.

(** The order of code unit sequences: the first difference decides, a
    proper prefix comes first. *)
Fixpoint units_compare (l1 l2 : list N) : comparison :=
  match l1, l2 with
  | [], [] => Eq
  | [], _ :: _ => Lt
  | _ :: _, [] => Gt
  | a :: rest1, b :: rest2 =>
      match N.compare a b with
      | Eq => units_compare rest1 rest2
      | c => c
      end
  end.

(** [a < b] on two strings: the comparison of their UTF-16 code units. *)
Definition js_lt (a b : string) : bool :=
  match units_compare (utf16 a) (utf16 b) with
  | Lt => true
  | _ => false
  end.

(** The comparator handed to [sort]: [-1] when the first name is the
    smaller, else [+(a > b)]. *)
Definition by_name {A : Type} (a b : string * A) : Z :=
  if js_lt (fst a) (fst b) then -1
  else if js_lt (fst b) (fst a) then 1 else 0.

(** [array.sort(compare)]: an element goes before the first one it does not
    compare greater than. *)
Fixpoint sort_insert {A : Type} (compare : A -> A -> Z) (x : A) (l : list A)
    : list A :=
  match l with
  | [] => [x]
  | y :: rest =>
      if (compare x y <=? 0)%Z then x :: l
      else y :: sort_insert compare x rest
  end.

Fixpoint Array_sort {A : Type} (compare : A -> A -> Z) (l : list A) : list A :=
  match l with
  | [] => []
  | x :: rest => sort_insert compare x (Array_sort compare rest)
  end.

(** A line feed, as the listing writes it. *)
Definition newline : string := String "010"%char EmptyString.

(** What the inner [forEach] pushes for one parameter. *)
Definition param_pieces (entry : string * Param.t) : list string :=
  let '(name, info) := entry in
  [" "]
  ++ (if Param.optional info then ["["] else [])
  ++ [name; "=<"; or_else (Param.type info) "unknown"; ">"]
  ++ (if Param.optional info then ["]"] else []).

(** What the outer [forEach] pushes for one method; [style] is
    [chalk.bold.blue]. *)
Definition method_pieces (style : string -> string)
    (entry : string * Method.t) : list string :=
  let '(name, info) := entry in
  [style name]
  ++ List.concat (param_pieces <$> Method.params info)
  ++ [newline]
  ++ (match Method.description info with
      | Some d => if String.eqb d "" then [] else ["  "; d; newline]
      | None => []
      end).

(** [pairs(methods)], [Object.keys(methods)] and [pick(methods, names)] on
    the object of methods. *)
Definition pairs (methods : gmap string Method.t) : list (string * Method.t) :=
  map_to_list methods.

Definition Object_keys (methods : gmap string Method.t) : list string :=
  fst <$> map_to_list methods.

Definition pick (methods : gmap string Method.t) (names : list string)
    : gmap string Method.t :=
  filter (fun entry => fst entry ∈ names) methods.

(** [str.join('')] after the two loops. *)
Definition listing (style : string -> string)
    (methods : gmap string Method.t) : string :=
  String.concat ""
    (List.concat (method_pieces style <$> Array_sort by_name (pairs methods))).

(** ** The simple variant: [src/index.js] *)

Module Simple.
Section Program.
Variable env : Env.

Definition connect : M Xo :=
  config ← config_load ;
  if negb (present (server config)) then throw NotConfigured
  else if negb (present (token config)) then throw NotAuthenticated
  else
    let url := default "" (server config) in
    let tok := default "" (token config) in
    let xo := {| _url := Xo_url env url |} in
    emit (EvNewXo url) ;;
    emit (EvCall xo "session.signInWithToken" {[ "token" := VStr tok ]}) ;;
    lift (xo_call env xo "session.signInWithToken" {[ "token" := VStr tok ]}) ;;
    mret xo.

(** The pattern of this variant, whose value group is dot-star: a
    non-empty name without [=], then [=], then a value that holds no line
    terminator. *)
Definition PARAM_RE (arg : string) : option (string * string) :=
  match split_eq arg with
  | Some (name, val) =>
      if String.eqb name "" || has_line_terminator val then None
      else Some (name, val)
  | None => None
  end.

(** The body of the [forEach] in [parseParameters]. *)
Definition parseParameter (params : object) (arg : string) : result object :=
  match PARAM_RE arg with
  | None => Err (MalformedArgument arg)
  | Some (name, val) =>
      if String.eqb name "@" then Ok (assign "@" (VStr val) params)
      else
        let value :=
          if String.eqb val "true" then VBool true
          else if String.eqb val "false" then VBool false
          else VStr val in
        Ok (assign name value params)
  end.

Definition parseParameters (args : list string) : result object :=
  forEach parseParameter args ∅.

Definition printProgress (progress : Progress.t) : warning :=
  if truthy (Progress.length progress) then
    {| format := long_format;
       arguments :=
         [ Math_round env (Progress.percentage progress);
           VStr (humanFormat env None (Progress.length progress));
           VStr (humanFormat env None (Progress.speed progress));
           VStr (prettyMs env (times_1e3 env (Progress.eta progress))) ] |}
  else
    {| format := short_format;
       arguments :=
         [ VStr (humanFormat env None (Progress.transferred progress));
           VStr (humanFormat env None (Progress.speed progress)) ] |}.

Definition main (args : list string) : dispatch :=
  match args with
  | [] => RunHelp
  | arg0 :: rest =>
      if String.eqb arg0 "-h" then RunHelp
      else
        let fnName := camelCase arg0 in
        match own fnName exports with
        | Some op => RunOwn op rest
        | None =>
            if bool_decide (fnName ∈ function_properties) || inherited env fnName
            then RunInherited fnName rest
            else RunCall args
        end
  end.

(** The base URL sentinel paths are resolved against. *)
Definition baseUrl (xo : Xo) : string := _url xo.

Definition handleResult (baseUrl : string) (file : value) (result : value)
    : M value :=
  if isObject result && (List.length (getKeys result) =? 1)%nat then
    let key := default "" (head (getKeys result)) in
    if String.eqb key "$getFrom" then
      url ← resolve env baseUrl (get_prop result key) ;
      output ← createWriteStream file ;
      download env url output
    else if String.eqb key "$sendTo" then
      url ← resolve env baseUrl (get_prop result key) ;
      length ← stat file ;
      upload env url file length
    else mret result
  else mret result.

Definition call (args : list string) : M value :=
  match args with
  | [] => throw MissingCommandName
  | method :: args' =>
      params ← lift (parseParameters args') ;
      let file := get "@" params in
      let params := delete "@" params in
      xo ← connect ;
      emit (EvCall xo method params) ;;
      result ← lift (xo_call env xo method params) ;
      handleResult (baseUrl xo) file result
  end.
(** Further collaborators: [chalk.bold.blue], lodash [filter] with an object
    or [null] as predicate, and [config.unset]. *)
Variable chalk_bold_blue : string -> string.
Variable lodash_filter : value -> option object -> value.
Variable config_unset : list string -> credentials -> credentials.

Definition unregister : M unit := fun w =>
  (Ok tt, {| config := config_unset ["server"; "token"] (config w);
             files := files w; trace := trace w |}).

(** The second step of [listCommands], on the methods the server told. *)
Definition formatMethodsInfo (args : list string)
    (methods : gmap string Method.t) : gmap string Method.t + string :=
  if bool_decide ("--json" ∈ args) then inl methods
  else inr (listing chalk_bold_blue methods).

Definition listObjects (args : list string) : M value :=
  sieve ← lift (match args with
                | [] => Ok None
                | _ => Some <$> parseParameters args
                end) ;
  xo ← connect ;
  emit (EvCall xo "xo.getAllObjects" ∅) ;;
  objects ← lift (xo_call env xo "xo.getAllObjects" ∅) ;
  mret (lodash_filter objects sieve).
End Program.
End Simple.

(** ** The rich variant: [src/unnamed/part_000] *)

Module Rich.
Section Program.
Variable env : Env.

Definition connect : M Xo :=
  config ← config_load ;
  if negb (present (server config)) then throw NotConfigured
  else if negb (present (token config)) then throw NotAuthenticated
  else
    let url := default "" (server config) in
    let tok := default "" (token config) in
    let xo := {| _url := Xo_url env url |} in
    emit (EvNewXo url) ;;
    emit (EvOpen xo) ;;
    lift (xo_open env xo) ;;
    emit (EvSignIn xo tok) ;;
    lift (xo_signIn env xo tok) ;;
    mret xo.

(** The pattern of this variant, whose value group is any-character-star:
    a non-empty name without [=], then [=], then any value at all. *)
Definition PARAM_RE (arg : string) : option (string * string) :=
  match split_eq arg with
  | Some (name, val) =>
      if String.eqb name "" then None else Some (name, val)
  | None => None
  end.

(** The body of the [forEach] in [parseParameters]. *)
Definition parseParameter (params : object) (arg : string) : result object :=
  match PARAM_RE arg with
  | None => Err (MalformedArgument arg)
  | Some (name, val) =>
      value ←
        (if _startsWith val "json:" then
           match JSON_parse env (slice 5 val) with
           | Some v => Ok v
           | None => Err InvalidJson
           end
         else Ok (VStr val)) ;
      if String.eqb name "@" then Ok (assign "@" value params)
      else
        let value :=
          if strict_eq_str value "true" then VBool true
          else if strict_eq_str value "false" then VBool false
          else value in
        Ok (assign name value params)
  end.

Definition parseParameters (args : list string) : result object :=
  forEach parseParameter args ∅.

Definition humanFormatOpts : string * string := ("B", "binary").

Definition printProgress (progress : Progress.t) : warning :=
  if truthy (Progress.length progress) then
    {| format := long_format;
       arguments :=
         [ Math_round env (Progress.percentage progress);
           VStr (humanFormat env (Some humanFormatOpts) (Progress.length progress));
           VStr (humanFormat env (Some humanFormatOpts) (Progress.speed progress));
           VStr (prettyMs env (times_1e3 env (Progress.eta progress))) ] |}
  else
    {| format := short_format;
       arguments :=
         [ VStr (humanFormat env (Some humanFormatOpts) (Progress.transferred progress));
           VStr (humanFormat env (Some humanFormatOpts) (Progress.speed progress)) ] |}.

Definition main (args : list string) : dispatch :=
  match args with
  | [] => RunHelp
  | arg0 :: rest =>
      if String.eqb arg0 "-h" then RunHelp
      else
        let fnName := camelCase arg0 in
        match own fnName exports with
        | Some op => RunOwn op rest
        | None =>
            if bool_decide (fnName ∈ function_properties) || inherited env fnName
            then RunInherited fnName rest
            else RunCall args
        end
  end.

(** The base URL sentinel paths are resolved against. *)
Definition baseUrl (xo : Xo) : string := replace_ws (_url xo).

Definition handleResult (baseUrl : string) (file : value) (result : value)
    : M value :=
  if isObject result && (List.length (getKeys result) =? 1)%nat then
    let key := default "" (head (getKeys result)) in
    if String.eqb key "$getFrom" then
      url ← resolve env baseUrl (get_prop result key) ;
      output ← createWriteStream file ;
      download_with_length env url output
    else if String.eqb key "$sendTo" then
      url ← resolve env baseUrl (get_prop result key) ;
      length ← stat file ;
      upload env url file length
    else mret result
  else mret result.

Definition call (args : list string) : M value :=
  match args with
  | [] => throw MissingCommandName
  | method :: args' =>
      params ← lift (parseParameters args') ;
      let file := get "@" params in
      let params := delete "@" params in
      xo ← connect ;
      emit (EvCall xo method params) ;;
      result ← lift (xo_call env xo method params) ;
      handleResult (baseUrl xo) file result
  end.
(** Further collaborators: [chalk.bold.blue], [micromatch], lodash [filter]
    with an object or [null] as predicate, and [config.unset]. *)
Variable chalk_bold_blue : string -> string.
Variable micromatch : list string -> list string -> list string.
Variable lodash_filter : value -> option object -> value.
Variable config_unset : list string -> credentials -> credentials.

Definition unregister : M unit := fun w =>
  (Ok tt, {| config := config_unset ["server"; "token"] (config w);
             files := files w; trace := trace w |}).

(** The first loop of [formatMethodsInfo]: [--json] raises the flag, every
    other argument is pushed as a pattern. *)
Definition scan_args (args : list string) : bool * list string :=
  foldl (fun state arg =>
           let '(json, patterns) := state in
           if String.eqb arg "--json" then (true, patterns)
           else (json, patterns ++ [arg]))
    (false, []) args.

(** The second step of [listCommands], on the methods the server told. *)
Definition formatMethodsInfo (args : list string)
    (methods : gmap string Method.t) : gmap string Method.t + string :=
  let '(json, patterns) := scan_args args in
  let methods :=
    match patterns with
    | [] => methods
    | _ => pick methods (micromatch (Object_keys methods) patterns)
    end in
  if json then inl methods
  else inr (listing chalk_bold_blue methods).

Definition listObjects (args : list string) : M value :=
  sieve ← lift (match args with
                | [] => Ok None
                | _ => Some <$> parseParameters args
                end) ;
  xo ← connect ;
  emit (EvCall xo "xo.getAllObjects" ∅) ;;
  objects ← lift (xo_call env xo "xo.getAllObjects" ∅) ;
  mret (lodash_filter objects sieve).
End Program.
End Rich.

(** ** A concrete environment

    One instance of the collaborators, to run the program on examples. Its
    JSON reader covers [null], [true], [false], integer literals, strings
    with the short escapes, arrays and objects; it refuses the rest. *)

Module Demo.
Fixpoint skip_ws (s : string) : string :=
  match s with
  | String c rest => if Ascii.is_space c then skip_ws rest else s
  | EmptyString => s
  end.

Fixpoint digits (acc : Z) (s : string) : Z * string :=
  match s with
  | String c rest =>
      match Ascii.is_nat c with
      | Some d => digits (10 * acc + Z.of_nat d) rest
      | None => (acc, s)
      end
  | EmptyString => (acc, s)
  end.

Definition starts_with_digit (s : string) : bool :=
  match s with
  | String c _ => bool_decide (is_Some (Ascii.is_nat c))
  | EmptyString => false
  end.

(** An integer literal: no leading zero, no fraction, no exponent. *)
Definition integer (s : string) : option (Z * string) :=
  if negb (starts_with_digit s) then None
  else if String.prefix "0" s && starts_with_digit (slice 1 s) then None
  else
    let '(n, rest) := digits 0 s in
    match rest with
    | String c _ =>
        if Ascii.eqb c "."%char || Ascii.eqb c "e"%char || Ascii.eqb c "E"%char
        then None else Some (n, rest)
    | EmptyString => Some (n, rest)
    end.

(** The characters of a string literal, after its opening quote. *)
Fixpoint chars (s : string) : option (string * string) :=
  match s with
  | EmptyString => None
  | String c rest =>
      if Ascii.eqb c dquote then Some (EmptyString, rest)
      else if Ascii.eqb c "\"%char then
        match rest with
        | String e rest' =>
            let unescaped :=
              if Ascii.eqb e "n"%char then Some "010"%char
              else if Ascii.eqb e "r"%char then Some "013"%char
              else if Ascii.eqb e "t"%char then Some "009"%char
              else if Ascii.eqb e "b"%char then Some "008"%char
              else if Ascii.eqb e "f"%char then Some "012"%char
              else if Ascii.eqb e dquote || Ascii.eqb e "\"%char
                      || Ascii.eqb e "/"%char then Some e
              else None in
            match unescaped, chars rest' with
            | Some u, Some (body, after) => Some (String u body, after)
            | _, _ => None
            end
        | EmptyString => None
        end
      else if (nat_of_ascii c <? 32)%nat then None
      else
        match chars rest with
        | Some (body, after) => Some (String c body, after)
        | None => None
        end
  end.

(** A later member of the same name wins and keeps the earlier place. *)
Definition add_member (key : string) (v : value)
    (later : list (string * value)) : list (string * value) :=
  (key, default v (assoc key later))
    :: List.filter (fun p => negb (String.eqb (fst p) key)) later.

Fixpoint json_value (fuel : nat) (s : string) : option (value * string) :=
  match fuel with
  | O => None
  | S fuel' =>
      let s := skip_ws s in
      if String.prefix "null" s then Some (VNull, slice 4 s)
      else if String.prefix "true" s then Some (VBool true, slice 4 s)
      else if String.prefix "false" s then Some (VBool false, slice 5 s)
      else
        match s with
        | String c rest =>
            if Ascii.eqb c dquote then
              match chars rest with
              | Some (body, after) => Some (VStr body, after)
              | None => None
              end
            else if Ascii.eqb c "["%char then
              if String.prefix "]" (skip_ws rest)
              then Some (VArr [], slice 1 (skip_ws rest))
              else
                match json_elements fuel' rest with
                | Some (l, after) => Some (VArr l, after)
                | None => None
                end
            else if Ascii.eqb c "{"%char then
              if String.prefix "}" (skip_ws rest)
              then Some (VObj [], slice 1 (skip_ws rest))
              else
                match json_members fuel' rest with
                | Some (l, after) => Some (VObj l, after)
                | None => None
                end
            else if Ascii.eqb c "-"%char then
              match integer rest with
              | Some (n, after) => Some (VNum (Finite (inject_Z (- n))), after)
              | None => None
              end
            else
              match integer s with
              | Some (n, after) => Some (VNum (Finite (inject_Z n)), after)
              | None => None
              end
        | EmptyString => None
        end
  end
with json_elements (fuel : nat) (s : string) : option (list value * string) :=
  match fuel with
  | O => None
  | S fuel' =>
      match json_value fuel' s with
      | Some (v, after) =>
          match skip_ws after with
          | String c rest =>
              if Ascii.eqb c "]"%char then Some ([v], rest)
              else if Ascii.eqb c ","%char then
                match json_elements fuel' rest with
                | Some (l, after') => Some (v :: l, after')
                | None => None
                end
              else None
          | EmptyString => None
          end
      | None => None
      end
  end
with json_members (fuel : nat) (s : string)
    : option (list (string * value) * string) :=
  match fuel with
  | O => None
  | S fuel' =>
      match skip_ws s with
      | String q rest =>
          if Ascii.eqb q dquote then
            match chars rest with
            | Some (key, after_key) =>
                match skip_ws after_key with
                | String colon rest' =>
                    if Ascii.eqb colon ":"%char then
                      match json_value fuel' rest' with
                      | Some (v, after) =>
                          match skip_ws after with
                          | String c rest'' =>
                              if Ascii.eqb c "}"%char then Some ([(key, v)], rest'')
                              else if Ascii.eqb c ","%char then
                                match json_members fuel' rest'' with
                                | Some (l, after') => Some (add_member key v l, after')
                                | None => None
                                end
                              else None
                          | EmptyString => None
                          end
                      | None => None
                      end
                    else None
                | EmptyString => None
                end
            | None => None
            end
          else None
      | EmptyString => None
      end
  end.

(** The whole text is one value, white space around it allowed. *)
Definition json_parse (s : string) : option value :=
  match json_value (S (String.length s)) s with
  | Some (v, after) =>
      if String.eqb (skip_ws after) "" then Some v else None
  | None => None
  end.





Definition env : Env := {|
  JSON_parse := json_parse;
  resolveUrl := fun from to => from +:+ to;
  Xo_url := fun url => url;
  xo_open := fun _ => Ok tt;
  xo_signIn := fun _ _ => Ok tt;
  xo_call := fun _ method _ =>
    if String.eqb method "vm.import" then Ok (VObj [("$sendTo", VStr "upload/1")])
    else if String.eqb method "vm.export" then Ok (VObj [("$getFrom", VStr "files/abc")])
    else Ok (VBool true);
  http_get := fun _ => ("bytes", true);
  http_declares_length := fun _ => false;
  http_post := fun _ _ _ => Ok "done";
  Math_round := fun v => v;
  times_1e3 := fun v => v;
  humanFormat := fun _ _ => "1 KiB";
  prettyMs := fun _ => "1s";
  inherited := fun name => bool_decide (name ∈ ["apply"; "bind"; "toString"; "constructor"])
|}.

Definition world0 : world := {|
  config := {| server := Some "ws://xo.example/api/"; token := Some "secret" |};
  files := {[ "disk.xva" := "0123456789" ]};
  trace := []
|}.
End Demo.

(** * The vocabulary of the properties *)

(** The world after some more requests. *)
Definition log (w : world) (evs : list event) : world :=
  {| config := config w; files := files w; trace := trace w ++ evs |}.

(** The coercion of a value that carries no [json:] tag. *)
Definition bool_or_string (val : string) : value :=
  if String.eqb val "true" then VBool true
  else if String.eqb val "false" then VBool false
  else VStr val.


(** A line feed. *)
Definition LF : string := String "010"%char EmptyString.

(** The JSON text of the object with the one member [a] set to [1]. *)
Definition json_a1 : string :=
  "{" +:+ String dquote "a" +:+ String dquote ":1}".


(** Running [m] from [w] adds requests that all satisfy [P], and leaves the
    credentials as they were. *)
Definition emits {A : Type} (P : event -> Prop) (m : M A) (w : world) : Prop :=
  exists evs, trace (snd (m w)) = trace w ++ evs
              /\ Forall P evs
              /\ config (snd (m w)) = config w.

(** The remote call does not carry the reserved name. *)
Definition not_forwarded (ev : event) : Prop :=
  match ev with
  | EvCall _ _ params => params !! "@" = None
  | _ => True
  end.

Section Vocabulary.
Variable env : Env.

(** A transfer request goes to a URL resolved against [base]; the
    dispatcher asks nothing of the transport. *)
Definition resolved_against (base : string) (ev : event) : Prop :=
  match ev with
  | EvGet url | EvPost url _ _ => exists path, url = resolveUrl env base path
  | EvNewXo _ | EvOpen _ | EvSignIn _ _ | EvCall _ _ _ => False
  | _ => True
  end.

(** A transfer request goes to a URL resolved against [base]. *)
Definition transfer_from (base : string) (ev : event) : Prop :=
  match ev with
  | EvGet url | EvPost url _ _ => exists path, url = resolveUrl env base path
  | _ => True
  end.

(** What a whole [call] may ask: the remote call never carries [@], and
    transfers go to URLs resolved against [base]. *)
Definition call_event_ok (base : string) (ev : event) : Prop :=
  match ev with
  | EvCall _ _ params => params !! "@" = None
  | EvGet url | EvPost url _ _ => exists path, url = resolveUrl env base path
  | _ => True
  end.

(** The transport [connect] builds from the persisted server URL. *)
Definition transport (w : world) : Xo :=
  {| _url := Xo_url env (default "" (server (config w))) |}.
End Vocabulary.

(** What the simple variant stores for a token [name=val]. *)
Definition simple_stored (name val : string) (v : value) : Prop :=
  v = if String.eqb name "@" then VStr val else bool_or_string val.

(** What [call] does once connected, for either variant: [run] is the whole
    call, [w1] the world after connecting and [base] the base URL. The one
    remote call is logged first; whatever its result, the requests that
    follow it are none of the transport. *)
Definition call_outcome (env : Env) (base : string) (xo : Xo) (method : string)
    (params : object) (w1 : world)
    (run : result value * world) : Prop :=
  let sent := delete "@" params in
  let w2 := log w1 [EvCall xo method sent] in
  sent !! "@" = None
  /\ (forall key, key <> "@" -> sent !! key = params !! key)
  /\ (exists evs, trace (snd run) = trace w1 ++ EvCall xo method sent :: evs
                  /\ Forall (resolved_against env base) evs)
  /\ (forall e, xo_call env xo method sent = Err e -> run = (Err e, w2))
  /\ (forall result,
        xo_call env xo method sent = Ok result ->
        (forall key v, result = VObj [(key, v)] ->
           key <> "$getFrom" /\ key <> "$sendTo") ->
        run = (Ok result, w2)).

(** Running [m] leaves every file but [file] as it was. *)
Definition keeps_other_files {A : Type} (file : value) (m : M A) : Prop :=
  forall w path, file <> VStr path ->
    files (snd (m w)) !! path = files w !! path.

(** The string holds no dash. *)
Fixpoint no_dash (s : string) : Prop :=
  match s with
  | EmptyString => True
  | String c rest => c <> "-"%char /\ no_dash rest
  end.

(** What [listObjects] may ask: the sign-in and one [xo.getAllObjects]
    without parameters; no transfer, no file access. *)
Definition listing_request (ev : event) : Prop :=
  match ev with
  | EvCall _ method params =>
      method = "session.signInWithToken"
      \/ (method = "xo.getAllObjects" /\ params = ∅)
  | EvNewXo _ | EvOpen _ | EvSignIn _ _ => True
  | _ => False
  end.

(** The first name is not after the second in the order of [<] on
    strings. *)
Definition name_le {A : Type} (a b : string * A) : Prop :=
  js_lt (fst b) (fst a) = false.

(** The value of the token carries no [json:] tag (a token that does not
    match has no value). *)
Definition untagged (arg : string) : Prop :=
  forall name val,
    Simple.PARAM_RE arg = Some (name, val) -> _startsWith val "json:" = false.

(** * Properties *)

(** ** Own properties of an object *)

Lemma object_insert_empty key (v : value) : <[ key := v ]> (∅ : object) = {[ key := v ]}.
Proof. reflexivity. Qed.

Lemma object_lookup_empty key : (∅ : object) !! key = None.
Proof. apply (lookup_empty (M := gmap string)). Qed.

Lemma object_lookup_insert_eq (o : object) key v : <[ key := v ]> o !! key = Some v.
Proof. apply (lookup_insert_eq (properties o)). Qed.

Lemma object_lookup_insert_ne (o : object) key key' v :
  key <> key' -> <[ key := v ]> o !! key' = o !! key'.
Proof. apply (lookup_insert_ne (properties o)). Qed.

Lemma object_lookup_insert_Some (o : object) key key' v v' :
  <[ key := v ]> o !! key' = Some v'
  <-> (key = key' /\ v = v') \/ (key <> key' /\ o !! key' = Some v').
Proof. apply (lookup_insert_Some (properties o)). Qed.

Lemma object_lookup_insert_is_Some (o : object) key key' v :
  is_Some (<[ key := v ]> o !! key')
  <-> key = key' \/ (key <> key' /\ is_Some (o !! key')).
Proof. apply (lookup_insert_is_Some (properties o)). Qed.

Lemma object_lookup_delete_eq (o : object) key : delete key o !! key = None.
Proof. apply (lookup_delete_eq (properties o)). Qed.

Lemma object_lookup_delete_ne (o : object) key key' :
  key <> key' -> delete key o !! key' = o !! key'.
Proof. apply (lookup_delete_ne (properties o)). Qed.

Lemma assign_plain name v (o : object) :
  name <> "__proto__" -> assign name v o = <[ name := v ]> o.
Proof. intros Hname. unfold assign. by apply String.eqb_neq in Hname as ->. Qed.

Lemma set_prototype_lookup v (o : object) key : set_prototype v o !! key = o !! key.
Proof. unfold set_prototype. destruct (isObject v); [done|]. by destruct v. Qed.

(** An assignment changes no own property but the one it names. *)
Lemma assign_lookup_ne name v (o : object) key :
  name <> key -> assign name v o !! key = o !! key.
Proof.
  intros Hne. unfold assign.
  destruct (String.eqb name "__proto__"); [|by apply object_lookup_insert_ne].
  destruct (o !! name); [by apply object_lookup_insert_ne|].
  destruct (hides_accessor _); [by apply object_lookup_insert_ne|].
  apply set_prototype_lookup.
Qed.

Lemma object_insert_insert_ne (o : object) key key' v v' :
  key <> key' ->
  <[ key := v ]> (<[ key' := v' ]> o) = <[ key' := v' ]> (<[ key := v ]> o).
Proof.
  intros Hne. unfold insert, object_insert. simpl. f_equal.
  by apply insert_insert_ne.
Qed.

Lemma set_prototype_insert v (o : object) key v' :
  set_prototype v (<[ key := v' ]> o) = <[ key := v' ]> (set_prototype v o).
Proof. unfold set_prototype. destruct (isObject v); [done|]. by destruct v. Qed.

Lemma assign_insert_ne name v (o : object) key v' :
  name <> key ->
  assign name v (<[ key := v' ]> o) = <[ key := v' ]> (assign name v o).
Proof.
  intros Hne. unfold assign.
  destruct (String.eqb name "__proto__");
    [|by apply object_insert_insert_ne].
  rewrite object_lookup_insert_ne by done.
  change (prototype_of (<[ key := v' ]> o)) with (prototype_of o).
  destruct (o !! name); [by apply object_insert_insert_ne|].
  destruct (hides_accessor _); [by apply object_insert_insert_ne|].
  apply set_prototype_insert.
Qed.

(** Assignments to two different names can be swapped. *)
Lemma assign_comm name1 name2 v1 v2 (o : object) :
  name1 <> name2 ->
  assign name2 v2 (assign name1 v1 o) = assign name1 v1 (assign name2 v2 o).
Proof.
  intros Hne.
  destruct (String.eqb_spec name2 "__proto__") as [->|Hplain].
  - rewrite (assign_plain name1) by done.
    rewrite (assign_plain name1) by done. by apply assign_insert_ne.
  - rewrite (assign_plain name2) by done.
    rewrite (assign_plain name2) by done. symmetry. by apply assign_insert_ne.
Qed.

(** An own property that is there after an assignment is the one assigned
    or was there before. *)
Lemma assign_lookup_Some name v (o : object) key v' :
  assign name v o !! key = Some v' ->
  (key = name /\ v' = v) \/ o !! key = Some v'.
Proof.
  destruct (decide (name = key)) as [<-|Hne];
    [|rewrite assign_lookup_ne by done; by right].
  unfold assign.
  destruct (String.eqb name "__proto__");
    [|rewrite object_lookup_insert_eq; intros [= <-]; by left].
  destruct (o !! name) eqn:Hown;
    [rewrite object_lookup_insert_eq; intros [= <-]; by left|].
  destruct (hides_accessor _);
    [rewrite object_lookup_insert_eq; intros [= <-]; by left|].
  rewrite set_prototype_lookup, Hown. discriminate.
Qed.

Ltac run :=
  cbv [mbind M_bind mret M_ret result_bind result_ret emit lift throw
       config_load read_file write_file resolve createWriteStream stat
       createReadStream upload download].

(** ** The transfer dispatcher *)

Section Dispatcher.
Variable env : Env.

Lemma only_getFrom result :
  isObject result && (List.length (getKeys result) =? 1)%nat = true ->
  default "" (head (getKeys result)) = "$getFrom" ->
  exists v, result = VObj [("$getFrom", v)].
Proof.
  intros Hone Hkey.
  destruct result as [| | | | |l|props]; try discriminate.
  - destruct l as [|x [|y l]]; discriminate.
  - destruct props as [|[key v] [|p props]]; try discriminate.
    simpl in Hkey. subst key. by exists v.
Qed.

(** The two variants carry the same dispatcher but for the download. *)
Lemma handleResult_same baseUrl file result w :
  (forall v, result <> VObj [("$getFrom", v)]) ->
  Simple.handleResult env baseUrl file result w
  = Rich.handleResult env baseUrl file result w.
Proof.
  intros Hnot. unfold Simple.handleResult, Rich.handleResult.
  destruct (isObject result && _) eqn:Hone; [|reflexivity].
  destruct (String.eqb_spec (default "" (head (getKeys result))) "$getFrom")
    as [Hkey|_]; [|reflexivity].
  destruct (only_getFrom result Hone Hkey) as [v ->]. by destruct (Hnot v).
Qed.

Lemma pass_through baseUrl file result w :
  (forall key v, result = VObj [(key, v)] ->
     key <> "$getFrom" /\ key <> "$sendTo") ->
  Rich.handleResult env baseUrl file result w = (Ok result, w).
Proof.
  intros Hshape. unfold Rich.handleResult.
  destruct result as [| | b | n | s | l | props]; try reflexivity.
  - destruct l as [|x [|y l]]; reflexivity.
  - destruct props as [|[key v] [|p props]]; try reflexivity.
    destruct (Hshape key v eq_refl) as [Hget Hsend].
    apply String.eqb_neq in Hget, Hsend. simpl.
    by rewrite Hget, Hsend.
Qed.

Lemma send_to baseUrl path file w :
  Rich.handleResult env baseUrl (VStr file) (VObj [("$sendTo", VStr path)]) w
  = match files w !! file with
    | None => (Err LocalFileNotFound, log w [EvStat file])
    | Some contents =>
        let url := resolveUrl env baseUrl path in
        let size := Z.of_nat (String.length contents) in
        (VStr <$> http_post env url size contents,
         log w [EvStat file; EvCreateReadStream file; EvPost url size contents])
    end.
Proof.
  unfold Rich.handleResult. simpl. run. simpl.
  destruct (files w !! file) as [contents|] eqn:Hfile; [|reflexivity].
  simpl. rewrite Hfile. simpl. rewrite <- !app_assoc. simpl.
  destruct (http_post env _ _ contents); reflexivity.
Qed.
End Dispatcher.

(** C1. A result is handed back unchanged, and nothing is requested, unless
    it is an object with exactly one key and that key is [$getFrom] or
    [$sendTo]; this holds in both variants. *)
Theorem C1_pass_through (env : Env) (baseUrl : string) (file result : value)
    (w : world)
    (Hshape : forall key v, result = VObj [(key, v)] ->
                key <> "$getFrom" /\ key <> "$sendTo") :
  Rich.handleResult env baseUrl file result w = (Ok result, w)
  /\ Simple.handleResult env baseUrl file result w = (Ok result, w).
Proof.
  split; [by apply pass_through|].
  rewrite handleResult_same; [by apply pass_through|].
  intros v ->. by destruct (Hshape _ _ eq_refl).
Qed.

(** The shapes the claim lists: a primitive, an object without keys, one
    with two keys, one with a single other key, a one-element array. *)
Lemma C1_pass_through_witness :
  Forall (fun result =>
            Rich.handleResult Demo.env "http://h/" (VStr "f") result Demo.world0
            = (Ok result, Demo.world0)
            /\ Simple.handleResult Demo.env "http://h/" (VStr "f") result Demo.world0
               = (Ok result, Demo.world0))
    [ VStr "$getFrom"; VNull; VObj [];
      VObj [("$getFrom", VStr "a"); ("$sendTo", VStr "b")];
      VObj [("other", VNum (Finite 1))]; VArr [VStr "$sendTo"] ].
Proof.
  repeat (apply Forall_cons_2;
            [apply C1_pass_through; intros key v Heq; simplify_eq;
             split; discriminate|]).
  apply Forall_nil_2.
Defined.

(** C2. On [{"$sendTo": path}] with a local file: when the file is absent
    the dispatcher fails with [LocalFileNotFound] having only looked for the
    file (no network request); when it holds [contents], the dispatcher
    POSTs to the resolved URL with a [content-length] equal to the size of
    [contents], and the outcome is the body of the response (or the failure
    of the POST). Both variants. *)
Theorem C2_send_to (env : Env) (baseUrl path file : string) (w : world) :
  let expected :=
    match files w !! file with
    | None => (Err LocalFileNotFound, log w [EvStat file])
    | Some contents =>
        let url := resolveUrl env baseUrl path in
        let size := Z.of_nat (String.length contents) in
        (VStr <$> http_post env url size contents,
         log w [EvStat file; EvCreateReadStream file; EvPost url size contents])
    end in
  Rich.handleResult env baseUrl (VStr file) (VObj [("$sendTo", VStr path)]) w
  = expected
  /\ Simple.handleResult env baseUrl (VStr file) (VObj [("$sendTo", VStr path)]) w
     = expected
  /\ (files w !! file = None ->
      exists evs, expected = (Err LocalFileNotFound, log w evs)
                  /\ Forall (fun ev => is_network ev = false) evs).
Proof.
  intros expected. split; [|split].
  - apply send_to.
  - rewrite handleResult_same by discriminate. apply send_to.
  - intros Habsent. exists [EvStat file]. subst expected. rewrite Habsent.
    split; [reflexivity|]. by repeat constructor.
Qed.

(** C2 on a run: an upload of a ten-byte file, and of a missing one. *)
Lemma C2_send_to_witness :
  Rich.handleResult Demo.env "http://h/" (VStr "disk.xva")
    (VObj [("$sendTo", VStr "upload/1")]) Demo.world0
  = (Ok (VStr "done"),
     log Demo.world0
       [EvStat "disk.xva"; EvCreateReadStream "disk.xva";
        EvPost "http://h/upload/1" 10 "0123456789"])
  /\ Rich.handleResult Demo.env "http://h/" (VStr "nothing")
       (VObj [("$sendTo", VStr "upload/1")]) Demo.world0
     = (Err LocalFileNotFound, log Demo.world0 [EvStat "nothing"]).
Proof.
  split.
  - exact (proj1 (C2_send_to Demo.env "http://h/" "upload/1" "disk.xva" Demo.world0)).
  - exact (proj1 (C2_send_to Demo.env "http://h/" "upload/1" "nothing" Demo.world0)).
Defined.

(** ** The parameter parser *)

Section Parser.
Variable env : Env.

Lemma append_cons c s t : String c s +:+ t = String c (s +:+ t).
Proof. reflexivity. Qed.

Lemma append_nil t : EmptyString +:+ t = t.
Proof. reflexivity. Qed.

Lemma split_eq_sound arg : forall name val,
  split_eq arg = Some (name, val) ->
  arg = name +:+ String "="%char val /\ no_eq name.
Proof.
  induction arg as [|c rest IH]; intros name val; simpl; [discriminate|].
  destruct (Ascii.eqb_spec c "="%char) as [->|Hc].
  - intros [= <- <-]. by rewrite append_nil.
  - destruct (split_eq rest) as [[name' val']|]; [|discriminate].
    intros [= <- <-]. destruct (IH name' val' eq_refl) as [-> Hno].
    by rewrite append_cons.
Qed.

Lemma split_eq_complete name : forall val,
  no_eq name -> split_eq (name +:+ String "="%char val) = Some (name, val).
Proof.
  induction name as [|c name IH]; intros val Hno.
  - by rewrite append_nil.
  - destruct Hno as [Hc Hno]. rewrite append_cons. simpl.
    apply Ascii.eqb_neq in Hc. rewrite Hc. by rewrite IH.
Qed.

Lemma split_eq_spec arg name val :
  split_eq arg = Some (name, val)
  <-> arg = name +:+ String "="%char val /\ no_eq name.
Proof.
  split; [apply split_eq_sound|].
  intros [-> Hno]. by apply split_eq_complete.
Qed.

Lemma eqb_empty name : String.eqb name "" = false <-> name <> EmptyString.
Proof. apply String.eqb_neq. Qed.

Lemma Rich_PARAM_RE_spec arg name val :
  Rich.PARAM_RE arg = Some (name, val) <-> token_grammar arg name val.
Proof.
  unfold Rich.PARAM_RE, token_grammar.
  destruct (split_eq arg) as [[name' val']|] eqn:Hsplit.
  - destruct (String.eqb name' "") eqn:Hempty.
    + split; [discriminate|]. intros (Heq & Hne & Hno).
      assert (split_eq arg = Some (name, val)) as Hs
        by (apply split_eq_spec; by split).
      rewrite Hsplit in Hs. injection Hs as -> ->.
      apply eqb_empty in Hne. congruence.
    + split.
      * intros [= <- <-]. apply split_eq_spec in Hsplit as [-> Hno].
        split; [done|]. split; [by apply eqb_empty|done].
      * intros (Heq & Hne & Hno).
        assert (split_eq arg = Some (name, val)) as Hs
          by (apply split_eq_spec; by split).
        rewrite Hsplit in Hs. by injection Hs as -> ->.
  - split; [discriminate|]. intros (Heq & Hne & Hno).
    assert (split_eq arg = Some (name, val)) as Hs
      by (apply split_eq_spec; by split).
    by rewrite Hsplit in Hs.
Qed.

Lemma Simple_PARAM_RE_spec arg name val :
  Simple.PARAM_RE arg = Some (name, val)
  <-> token_grammar arg name val /\ has_line_terminator val = false.
Proof.
  rewrite <- Rich_PARAM_RE_spec. unfold Simple.PARAM_RE, Rich.PARAM_RE.
  destruct (split_eq arg) as [[name' val']|]; [|split; [discriminate|by intros [? _]]].
  destruct (String.eqb name' ""); simpl; [split; [discriminate|by intros [? _]]|].
  destruct (has_line_terminator val') eqn:Hlt.
  - split; [discriminate|]. intros [[= <- <-] Hlt']. congruence.
  - split; [by intros [= <- <-]|by intros [? _]].
Qed.

Lemma Rich_single arg :
  Rich.parseParameters env [arg] = Rich.parseParameter env ∅ arg.
Proof.
  unfold Rich.parseParameters. simpl.
  by destruct (Rich.parseParameter env ∅ arg).
Qed.

Lemma Simple_single arg :
  Simple.parseParameters [arg] = Simple.parseParameter ∅ arg.
Proof.
  unfold Simple.parseParameters. simpl.
  by destruct (Simple.parseParameter ∅ arg).
Qed.

Lemma Rich_malformed_iff params arg :
  Rich.parseParameter env params arg = Err (MalformedArgument arg)
  <-> Rich.PARAM_RE arg = None.
Proof.
  unfold Rich.parseParameter, mbind, result_bind.
  destruct (Rich.PARAM_RE arg) as [[name val]|]; [|done].
  split; [|discriminate].
  destruct (_startsWith val "json:").
  - destruct (JSON_parse env (slice 5 val)); [|discriminate].
    by destruct (String.eqb name "@").
  - by destruct (String.eqb name "@").
Qed.

Lemma Simple_malformed_iff params arg :
  Simple.parseParameter params arg = Err (MalformedArgument arg)
  <-> Simple.PARAM_RE arg = None.
Proof.
  unfold Simple.parseParameter.
  destruct (Simple.PARAM_RE arg) as [[name val]|]; [|done].
  split; [|discriminate]. by destruct (String.eqb name "@").
Qed.

Lemma Simple_accepts_iff params arg :
  (exists params', Simple.parseParameter params arg = Ok params')
  <-> Simple.PARAM_RE arg <> None.
Proof.
  unfold Simple.parseParameter.
  destruct (Simple.PARAM_RE arg) as [[name val]|].
  - split; [done|]. intros _. destruct (String.eqb name "@"); eauto.
  - split; [by intros [? ?]|done].
Qed.
Lemma Rich_reserved params arg val :
  token_grammar arg "@" val ->
  Rich.parseParameter env params arg
  = (if _startsWith val "json:" then
       match JSON_parse env (slice 5 val) with
       | Some v => Ok (<[ "@" := v ]> params)
       | None => Err InvalidJson
       end
     else Ok (<[ "@" := VStr val ]> params)).
Proof.
  intros Hgrammar. apply Rich_PARAM_RE_spec in Hgrammar.
  unfold Rich.parseParameter, mbind, result_bind. rewrite Hgrammar.
  destruct (_startsWith val "json:"); [|reflexivity].
  by destruct (JSON_parse env (slice 5 val)).
Qed.

Lemma Rich_untagged params arg name val :
  token_grammar arg name val -> name <> "@" ->
  _startsWith val "json:" = false ->
  Rich.parseParameter env params arg
  = Ok (assign name (bool_or_string val) params).
Proof.
  intros Hgrammar Hname Hjson. apply String.eqb_neq in Hname.
  apply Rich_PARAM_RE_spec in Hgrammar.
  unfold Rich.parseParameter, mbind, result_bind, bool_or_string.
  rewrite Hgrammar, Hjson, Hname. simpl.
  by destruct (String.eqb val "true"), (String.eqb val "false").
Qed.
End Parser.

(** C3, as the code has it. In the rich variant a token raises
    [MalformedArgument] exactly when it is not a non-empty name without [=],
    then [=], then any value (line breaks and the empty value included). In
    the simple variant the value must also hold no line terminator: such a
    token is accepted, every other one raises [MalformedArgument]. The empty
    token is refused by both. *)
Theorem C3_token_grammar (env : Env) (arg : string) :
  (forall name val,
     Rich.PARAM_RE arg = Some (name, val) <-> token_grammar arg name val)
  /\ (Rich.parseParameters env [arg] = Err (MalformedArgument arg)
      <-> ~ exists name val, token_grammar arg name val)
  /\ (forall name val,
        Simple.PARAM_RE arg = Some (name, val)
        <-> token_grammar arg name val /\ has_line_terminator val = false)
  /\ ((exists params, Simple.parseParameters [arg] = Ok params)
      <-> exists name val,
            token_grammar arg name val /\ has_line_terminator val = false)
  /\ (Simple.parseParameters [arg] = Err (MalformedArgument arg)
      <-> ~ exists name val,
              token_grammar arg name val /\ has_line_terminator val = false)
  /\ Rich.parseParameters env [""] = Err (MalformedArgument "")
  /\ Simple.parseParameters [""] = Err (MalformedArgument "").
Proof.
  split; [apply Rich_PARAM_RE_spec|].
  split.
  { rewrite Rich_single, Rich_malformed_iff. split.
    - intros Hnone (name & val & Hg). apply Rich_PARAM_RE_spec in Hg. congruence.
    - intros Hno. destruct (Rich.PARAM_RE arg) as [[name val]|] eqn:Hre; [|done].
      exfalso. apply Hno. exists name, val. by apply Rich_PARAM_RE_spec. }
  split; [apply Simple_PARAM_RE_spec|].
  split.
  { rewrite Simple_single, Simple_accepts_iff. split.
    - intros Hsome. destruct (Simple.PARAM_RE arg) as [[name val]|] eqn:Hre; [|done].
      exists name, val. by apply Simple_PARAM_RE_spec.
    - intros (name & val & Hg). apply Simple_PARAM_RE_spec in Hg. congruence. }
  split.
  { rewrite Simple_single, Simple_malformed_iff. split.
    - intros Hnone (name & val & Hg). apply Simple_PARAM_RE_spec in Hg. congruence.
    - intros Hno. destruct (Simple.PARAM_RE arg) as [[name val]|] eqn:Hre; [|done].
      exfalso. apply Hno. exists name, val. by apply Simple_PARAM_RE_spec. }
  split; reflexivity.
Qed.

(** C3 fails on the simple variant: [a=] followed by a line feed is a name,
    [=], and a value, yet it is refused. *)
Lemma C3_counterexample :
  token_grammar ("a=" +:+ LF) "a" LF
  /\ Simple.parseParameters ["a=" +:+ LF] = Err (MalformedArgument ("a=" +:+ LF)).
Proof.
  split; [|reflexivity].
  split; [reflexivity|]. split; [discriminate|]. simpl. split; [discriminate|done].
Qed.

(** C4, as the code has it, for a name other than [@] and [__proto__].
    Rich variant: a value tagged [json:] loses the
    tag and is parsed as JSON, [InvalidJson] on malformed text, and the
    parsed value is stored when it is not the string [true] or [false]; an
    untagged value that reads [true] or [false] becomes that boolean; any
    other untagged value stays a string. Simple variant: there is no
    [json:] tag; [true] and [false] become booleans and every other value,
    tagged ones included, stays a string. *)
Theorem C4_value_coercion (env : Env) (params : object)
    (arg name val : string)
    (Hgrammar : token_grammar arg name val) (Hname : name <> "@")
    (Hproto : name <> "__proto__") :
  (_startsWith val "json:" = true ->
     (JSON_parse env (slice 5 val) = None ->
        Rich.parseParameter env params arg = Err InvalidJson)
     /\ (forall v, JSON_parse env (slice 5 val) = Some v ->
           strict_eq_str v "true" = false -> strict_eq_str v "false" = false ->
           Rich.parseParameter env params arg = Ok (<[ name := v ]> params)))
  /\ (_startsWith val "json:" = false ->
        Rich.parseParameter env params arg
        = Ok (<[ name := bool_or_string val ]> params))
  /\ (has_line_terminator val = false ->
        Simple.parseParameter params arg
        = Ok (<[ name := bool_or_string val ]> params)).
Proof.
  apply String.eqb_neq in Hname.
  split; [|split].
  - intros Hjson.
    apply Rich_PARAM_RE_spec in Hgrammar.
    unfold Rich.parseParameter, mbind, result_bind.
    rewrite Hgrammar, Hjson. split.
    + by intros ->.
    + intros v -> Htrue Hfalse.
      by rewrite Hname, Htrue, Hfalse, assign_plain.
  - intros Hjson. apply String.eqb_neq in Hname.
    by rewrite <- assign_plain by done; apply Rich_untagged.
  - intros Hlt.
    assert (Simple.PARAM_RE arg = Some (name, val)) as Hre
      by (by apply Simple_PARAM_RE_spec).
    unfold Simple.parseParameter, bool_or_string.
    by rewrite Hre, Hname, assign_plain.
Qed.

Lemma grammar_intro name val :
  name <> EmptyString -> no_eq name ->
  token_grammar (name +:+ String "="%char val) name val.
Proof. intros Hne Hno. by split. Qed.

(** C4 on the examples of the claim: [json:{"a":1}] gives the object,
    [true] the boolean, [x] the string. *)
Lemma C4_value_coercion_witness :
  Rich.parseParameter Demo.env ∅ ("a=json:" +:+ json_a1)
  = Ok {[ "a" := VObj [("a", VNum (Finite 1))] ]}
  /\ Rich.parseParameter Demo.env ∅ "b=true" = Ok {[ "b" := VBool true ]}
  /\ Rich.parseParameter Demo.env ∅ "c=x" = Ok {[ "c" := VStr "x" ]}
  /\ Simple.parseParameter ∅ "b=true" = Ok {[ "b" := VBool true ]}.
Proof.
  split; [|split; [|split]].
  - refine (proj2 (proj1 (C4_value_coercion Demo.env ∅ _ "a" ("json:" +:+ json_a1)
              _ _ _) _) _ _ _ _); try reflexivity; try discriminate.
    apply (grammar_intro "a"); [discriminate|]. simpl. split; [discriminate|done].
  - refine (proj1 (proj2 (C4_value_coercion Demo.env ∅ _ "b" "true" _ _ _)) _);
      try reflexivity; try discriminate.
    apply (grammar_intro "b"); [discriminate|]. simpl. split; [discriminate|done].
  - refine (proj1 (proj2 (C4_value_coercion Demo.env ∅ _ "c" "x" _ _ _)) _);
      try reflexivity; try discriminate.
    apply (grammar_intro "c"); [discriminate|]. simpl. split; [discriminate|done].
  - refine (proj2 (proj2 (C4_value_coercion Demo.env ∅ _ "b" "true" _ _ _)) _);
      try reflexivity; try discriminate.
    apply (grammar_intro "b"); [discriminate|]. simpl. split; [discriminate|done].
Defined.

(** C4 fails on the simple variant: the tagged value stays the text it
    was, no object is built. *)
Lemma C4_counterexample :
  Simple.parseParameters ["a=json:" +:+ json_a1]
  = Ok {[ "a" := VStr ("json:" +:+ json_a1) ]}.
Proof. reflexivity. Qed.

(** In the rich variant a JSON string that reads [true] is then taken for
    the boolean. *)
Example Rich_json_string_true :
  Rich.parseParameters Demo.env
    ["a=json:" +:+ String dquote "true" +:+ String dquote ""]
  = Ok {[ "a" := VBool true ]}.
Proof. reflexivity. Qed.

(** ** What a run asks of the world *)

Section Traces.
Variable env : Env.

Lemma emits_silent {A : Type} (P : event -> Prop) (m : M A) w r :
  m w = (r, w) -> emits P m w.
Proof.
  intros Hm. exists []. rewrite Hm. simpl.
  split; [by rewrite app_nil_r|]. by split.
Qed.

Lemma emits_emit (P : event -> Prop) ev w : P ev -> emits P (emit ev) w.
Proof. intros Hev. exists [ev]. simpl. split; [done|]. split; [by constructor|done]. Qed.

Lemma emits_write_file (P : event -> Prop) path contents w :
  emits P (write_file path contents) w.
Proof. exists []. simpl. split; [by rewrite app_nil_r|]. by split. Qed.

Lemma emits_bind {A B : Type} (P : event -> Prop) (m : M A) (k : A -> M B) w :
  emits P m w ->
  (forall a w', m w = (Ok a, w') -> emits P (k a) w') ->
  emits P (m ≫= k) w.
Proof.
  intros (evs & Htrace & Hall & Hconfig) Hk.
  unfold mbind, M_bind. destruct (m w) as [[a|e] w'] eqn:Hm; simpl in *.
  - destruct (Hk a w' eq_refl) as (evs' & Htrace' & Hall' & Hconfig').
    exists (evs ++ evs'). rewrite Hm, Htrace', Htrace, Hconfig', Hconfig.
    split; [by rewrite app_assoc|]. split; [by apply Forall_app|done].
  - exists evs. by rewrite Hm.
Qed.

Lemma emits_weaken {A : Type} (P Q : event -> Prop) (m : M A) w :
  (forall ev, P ev -> Q ev) -> emits P m w -> emits Q m w.
Proof.
  intros HPQ (evs & Htrace & Hall & Hconfig). exists evs.
  split; [done|]. split; [|done]. eapply Forall_impl; eauto.
Qed.

Lemma transfer_emits base (file : value) w (k : string -> value -> M value) :
  (forall path, emits (resolved_against env base) (k (resolveUrl env base path) file) w) ->
  forall to,
  emits (resolved_against env base) (resolve env base to ≫= fun url => k url file) w.
Proof.
  intros Hk to. destruct to; try by eapply emits_silent.
  apply emits_bind; [by eapply emits_silent|].
  intros a w' [= <- <-]. apply Hk.
Qed.

Lemma download_emits base path file w :
  emits (resolved_against env base)
    (createWriteStream file ≫= download env (resolveUrl env base path)) w.
Proof.
  apply emits_bind.
  - destruct file; try by eapply emits_silent.
    apply emits_bind; [by apply emits_emit|]. intros _ w1 _.
    apply emits_bind; [apply emits_write_file|]. intros _ w2 _.
    by eapply emits_silent.
  - intros output w1 _. unfold download.
    apply emits_bind; [apply emits_emit; simpl; eauto|]. intros _ w2 _.
    destruct (http_get env _) as [received finished].
    apply emits_bind; [apply emits_write_file|]. intros _ w3 _.
    destruct finished; by eapply emits_silent.
Qed.

Lemma upload_emits base path file w :
  emits (resolved_against env base)
    (stat file ≫= upload env (resolveUrl env base path) file) w.
Proof.
  apply emits_bind.
  - destruct file; try by eapply emits_silent.
    apply emits_bind; [by apply emits_emit|]. intros _ w1 _.
    apply emits_bind; [by eapply emits_silent|]. intros contents w2 _.
    destruct contents; by eapply emits_silent.
  - intros length w1 _. unfold upload.
    apply emits_bind.
    { destruct file; try by eapply emits_silent.
      apply emits_bind; [by apply emits_emit|]. intros _ w2 _.
      apply emits_bind; [by eapply emits_silent|]. intros contents w3 _.
      destruct contents; by eapply emits_silent. }
    intros input w2 _.
    apply emits_bind; [apply emits_emit; simpl; eauto|]. intros _ w3 _.
    apply emits_bind; [by eapply emits_silent|]. intros body w4 _.
    by eapply emits_silent.
Qed.

Lemma download_with_length_emits base path file w :
  emits (resolved_against env base)
    (createWriteStream file
       ≫= download_with_length env (resolveUrl env base path)) w.
Proof.
  apply emits_bind.
  - destruct file; try by eapply emits_silent.
    apply emits_bind; [by apply emits_emit|]. intros _ w1 _.
    apply emits_bind; [apply emits_write_file|]. intros _ w2 _.
    by eapply emits_silent.
  - intros output w1 _. unfold download_with_length.
    apply emits_bind; [apply emits_emit; simpl; eauto|]. intros _ w2 _.
    destruct (http_declares_length env _); [by eapply emits_silent|].
    destruct (http_get env _) as [received finished].
    apply emits_bind; [apply emits_write_file|]. intros _ w3 _.
    destruct finished; by eapply emits_silent.
Qed.

Lemma Simple_handleResult_emits base file result w :
  emits (resolved_against env base) (Simple.handleResult env base file result) w.
Proof.
  unfold Simple.handleResult.
  destruct (isObject result && _); [|by eapply emits_silent].
  destruct (String.eqb _ "$getFrom").
  { apply (transfer_emits base file w
             (fun url file => createWriteStream file ≫= download env url)).
    intros path. apply download_emits. }
  destruct (String.eqb _ "$sendTo"); [|by eapply emits_silent].
  apply (transfer_emits base file w
           (fun url file => stat file ≫= upload env url file)).
  intros path. apply upload_emits.
Qed.

Lemma handleResult_emits base file result w :
  emits (resolved_against env base) (Rich.handleResult env base file result) w.
Proof.
  unfold Rich.handleResult.
  destruct (isObject result && _); [|by eapply emits_silent].
  destruct (String.eqb _ "$getFrom").
  { apply (transfer_emits base file w
             (fun url file =>
                createWriteStream file ≫= download_with_length env url)).
    intros path. apply download_with_length_emits. }
  destruct (String.eqb _ "$sendTo"); [|by eapply emits_silent].
  apply (transfer_emits base file w
           (fun url file => stat file ≫= upload env url file)).
  intros path. apply upload_emits.
Qed.
End Traces.

(** ** The session bootstrap and the remote call *)

Section Session.
Variable env : Env.

Lemma present_Some x : present x = true -> exists s, x = Some s /\ s <> "".
Proof.
  destruct x as [s|]; [|discriminate]. simpl. intros Hs. exists s.
  split; [done|]. apply String.eqb_neq. by destruct (String.eqb s "").
Qed.

Lemma Rich_connect_refused w :
  Rich.connect env w =
    if negb (present (server (config w))) then (Err NotConfigured, w)
    else if negb (present (token (config w))) then (Err NotAuthenticated, w)
    else Rich.connect env w.
Proof.
  unfold Rich.connect. run.
  destruct (present (server (config w))); [|reflexivity].
  destruct (present (token (config w))); [|reflexivity].
  reflexivity.
Qed.

Lemma Simple_connect_refused w :
  Simple.connect env w =
    if negb (present (server (config w))) then (Err NotConfigured, w)
    else if negb (present (token (config w))) then (Err NotAuthenticated, w)
    else Simple.connect env w.
Proof.
  unfold Simple.connect. run.
  destruct (present (server (config w))); [|reflexivity].
  destruct (present (token (config w))); [|reflexivity].
  reflexivity.
Qed.

Lemma Rich_connect_run w s t :
  server (config w) = Some s -> token (config w) = Some t ->
  s <> "" -> t <> "" ->
  let xo := {| _url := Xo_url env s |} in
  Rich.connect env w =
    match xo_open env xo with
    | Err e => (Err e, log w [EvNewXo s; EvOpen xo])
    | Ok _ =>
        match xo_signIn env xo t with
        | Err e => (Err e, log w [EvNewXo s; EvOpen xo; EvSignIn xo t])
        | Ok _ => (Ok xo, log w [EvNewXo s; EvOpen xo; EvSignIn xo t])
        end
    end.
Proof.
  intros Hs Ht Hs' Ht' xo. apply String.eqb_neq in Hs', Ht'.
  unfold Rich.connect. run. rewrite Hs, Ht. simpl. rewrite Hs', Ht'. simpl.
  fold xo. unfold log. simpl.
  destruct (xo_open env xo); [destruct (xo_signIn env xo t)|];
    by rewrite <- !app_assoc.
Qed.

Lemma Simple_connect_run w s t :
  server (config w) = Some s -> token (config w) = Some t ->
  s <> "" -> t <> "" ->
  let xo := {| _url := Xo_url env s |} in
  let sign_in := EvCall xo "session.signInWithToken" {[ "token" := VStr t ]} in
  Simple.connect env w =
    match xo_call env xo "session.signInWithToken" {[ "token" := VStr t ]} with
    | Err e => (Err e, log w [EvNewXo s; sign_in])
    | Ok _ => (Ok xo, log w [EvNewXo s; sign_in])
    end.
Proof.
  intros Hs Ht Hs' Ht' xo sign_in. apply String.eqb_neq in Hs', Ht'.
  unfold Simple.connect. run. rewrite Hs, Ht. simpl. rewrite Hs', Ht'. simpl.
  fold xo. unfold log. simpl.
  destruct (xo_call env xo _ _); by rewrite <- !app_assoc.
Qed.

Lemma resolved_call_event_ok base ev :
  resolved_against env base ev -> call_event_ok env base ev.
Proof. by destruct ev. Qed.

Lemma Rich_connect_emits base w :
  emits (call_event_ok env base) (Rich.connect env) w
  /\ forall xo w', Rich.connect env w = (Ok xo, w') -> xo = transport env w.
Proof.
  rewrite Rich_connect_refused.
  destruct (present (server (config w))) eqn:Hs; simpl;
    [|split; [by eapply emits_silent; rewrite Rich_connect_refused, Hs|done]].
  destruct (present (token (config w))) eqn:Ht; simpl;
    [|split; [by eapply emits_silent; rewrite Rich_connect_refused, Hs, Ht|done]].
  apply present_Some in Hs as (s & Hs & Hs'), Ht as (t & Ht & Ht').
  rewrite (Rich_connect_run w s t Hs Ht Hs' Ht').
  unfold transport. rewrite Hs. simpl.
  split.
  - pose proof (Rich_connect_run w s t Hs Ht Hs' Ht') as Hrun. simpl in Hrun.
    unfold emits. rewrite Hrun.
    destruct (xo_open env _); [destruct (xo_signIn env _ t)|];
      eexists; (split; [reflexivity|]); (split; [|done]); by repeat constructor.
  - intros xo w'.
    destruct (xo_open env _); [destruct (xo_signIn env _ t)|]; by intros [= <- <-].
Qed.

Lemma Simple_connect_emits base w :
  emits (call_event_ok env base) (Simple.connect env) w
  /\ forall xo w', Simple.connect env w = (Ok xo, w') -> xo = transport env w.
Proof.
  rewrite Simple_connect_refused.
  destruct (present (server (config w))) eqn:Hs; simpl;
    [|split; [by eapply emits_silent; rewrite Simple_connect_refused, Hs|done]].
  destruct (present (token (config w))) eqn:Ht; simpl;
    [|split; [by eapply emits_silent; rewrite Simple_connect_refused, Hs, Ht|done]].
  apply present_Some in Hs as (s & Hs & Hs'), Ht as (t & Ht & Ht').
  rewrite (Simple_connect_run w s t Hs Ht Hs' Ht').
  unfold transport. rewrite Hs. simpl.
  split.
  - pose proof (Simple_connect_run w s t Hs Ht Hs' Ht') as Hrun. simpl in Hrun.
    unfold emits. rewrite Hrun.
    destruct (xo_call env _ _ _);
      eexists; (split; [reflexivity|]); (split; [|done]); by repeat constructor.
  - intros xo w'. destruct (xo_call env _ _ _); by intros [= <- <-].
Qed.

Lemma Rich_call_emits args w :
  emits (call_event_ok env (Rich.baseUrl (transport env w))) (Rich.call env args) w.
Proof.
  unfold Rich.call. destruct args as [|method args']; [by eapply emits_silent|].
  apply emits_bind; [by eapply emits_silent|]. intros params w0 [= _ <-].
  destruct (Rich_connect_emits (Rich.baseUrl (transport env w)) w) as [Hemits Hxo].
  apply emits_bind; [done|]. intros xo w1 Hconnect.
  apply Hxo in Hconnect as ->.
  apply emits_bind; [apply emits_emit; simpl; apply lookup_delete_eq|].
  intros _ w2 _.
  apply emits_bind; [by eapply emits_silent|]. intros result w3 _.
  eapply emits_weaken; [apply resolved_call_event_ok|].
  apply handleResult_emits.
Qed.

Lemma Simple_call_emits args w :
  emits (call_event_ok env (Simple.baseUrl (transport env w))) (Simple.call env args) w.
Proof.
  unfold Simple.call. destruct args as [|method args']; [by eapply emits_silent|].
  apply emits_bind; [by eapply emits_silent|]. intros params w0 [= _ <-].
  destruct (Simple_connect_emits (Simple.baseUrl (transport env w)) w) as [Hemits Hxo].
  apply emits_bind; [done|]. intros xo w1 Hconnect.
  apply Hxo in Hconnect as ->.
  apply emits_bind; [apply emits_emit; simpl; apply lookup_delete_eq|].
  intros _ w2 _.
  apply emits_bind; [by eapply emits_silent|]. intros result w3 _.
  eapply emits_weaken; [apply resolved_call_event_ok|].
  apply Simple_handleResult_emits.
Qed.
End Session.

(** C5, as the code has it. A token named [@] is stored under [@]: as the
    raw string in the simple variant; in the rich variant after the [json:]
    coercion only (a tagged value is parsed, an untagged one stays a string,
    [true] and [false] included). In both variants no remote call of [call]
    carries [@]. *)
Theorem C5_reserved_name (env : Env) (params : object)
    (arg val : string) (Hgrammar : token_grammar arg "@" val) :
  (has_line_terminator val = false ->
     Simple.parseParameter params arg = Ok (<[ "@" := VStr val ]> params))
  /\ Rich.parseParameter env params arg
     = (if _startsWith val "json:" then
          match JSON_parse env (slice 5 val) with
          | Some v => Ok (<[ "@" := v ]> params)
          | None => Err InvalidJson
          end
        else Ok (<[ "@" := VStr val ]> params))
  /\ forall args w,
       emits not_forwarded (Simple.call env args) w
       /\ emits not_forwarded (Rich.call env args) w.
Proof.
  split; [|split].
  - intros Hlt.
    assert (Simple.PARAM_RE arg = Some ("@", val)) as Hre
      by (by apply Simple_PARAM_RE_spec).
    unfold Simple.parseParameter. by rewrite Hre.
  - by apply Rich_reserved.
  - intros args w. split.
    + eapply emits_weaken; [|apply Simple_call_emits]. by intros [].
    + eapply emits_weaken; [|apply Rich_call_emits]. by intros [].
Qed.

(** C5 on a run: [@=disk.xva] is stored, and [@=json:true] is parsed. *)
Lemma C5_reserved_name_witness :
  Simple.parseParameter ∅ "@=disk.xva" = Ok {[ "@" := VStr "disk.xva" ]}
  /\ Rich.parseParameter Demo.env ∅ "@=json:true" = Ok {[ "@" := VBool true ]}
  /\ emits not_forwarded
       (Rich.call Demo.env ["vm.import"; "@=disk.xva"; "a=1"]) Demo.world0.
Proof.
  assert (no_eq "@") as Hno by (simpl; split; [discriminate|done]).
  split; [|split].
  - refine (proj1 (C5_reserved_name Demo.env ∅ _ "disk.xva" _) _); [|reflexivity].
    by apply (grammar_intro "@").
  - refine (proj1 (proj2 (C5_reserved_name Demo.env ∅ _ "json:true" _))).
    by apply (grammar_intro "@").
  - refine (proj2 (proj2 (proj2 (C5_reserved_name Demo.env ∅ _ "x" _)) _ _)).
    by apply (grammar_intro "@").
Defined.

(** C5 fails on the rich variant: under [@] the text [true] stays a string,
    while under another name it becomes the boolean. *)
Lemma C5_counterexample :
  Rich.parseParameters Demo.env ["@=true"] = Ok {[ "@" := VStr "true" ]}
  /\ Rich.parseParameters Demo.env ["x=true"] = Ok {[ "x" := VBool true ]}.
Proof. split; reflexivity. Qed.

Lemma replace_ws_other url :
  String.prefix "ws" url = false -> replace_ws url = url.
Proof.
  destruct url as [|c [|d url]]; [done| |].
  - intros _. destruct c as [[] [] [] [] [] [] [] []]; reflexivity.
  - intros Hprefix. simpl in Hprefix.
    destruct (Ascii.eqb_spec c "w"%char) as [->|Hc].
    + destruct (Ascii.eqb_spec d "s"%char) as [->|Hd]; [by destruct url|].
      destruct d as [[] [] [] [] [] [] [] []]; try reflexivity. by destruct Hd.
    + destruct c as [[] [] [] [] [] [] [] []]; try reflexivity. by destruct Hc.
Qed.

(** C6, as the code has it. Rich variant: the base URL is the [_url] of the
    transport with a leading [ws] replaced by [http], so [ws://] becomes
    [http://] and [wss://] becomes [https://], and a URL that does not start
    with [ws] is kept. Simple variant: the base URL is the [_url] itself.
    In both, every transfer of [call] goes to a URL resolved against that
    base. *)
Theorem C6_base_url (env : Env) (rest : string) (xo : Xo)
    (args : list string) (w : world) :
  Rich.baseUrl {| _url := "ws://" +:+ rest |} = "http://" +:+ rest
  /\ Rich.baseUrl {| _url := "wss://" +:+ rest |} = "https://" +:+ rest
  /\ (String.prefix "ws" (_url xo) = false -> Rich.baseUrl xo = _url xo)
  /\ Simple.baseUrl xo = _url xo
  /\ emits (transfer_from env (Rich.baseUrl (transport env w)))
       (Rich.call env args) w
  /\ emits (transfer_from env (Simple.baseUrl (transport env w)))
       (Simple.call env args) w.
Proof.
  split; [reflexivity|]. split; [reflexivity|].
  split.
  { destruct xo as [url]. apply replace_ws_other. }
  split; [reflexivity|].
  split.
  - eapply emits_weaken; [|apply Rich_call_emits]. by intros [].
  - eapply emits_weaken; [|apply Simple_call_emits]. by intros [].
Qed.

(** C6 on a run of the rich variant: the upload goes to an [http] URL. *)
Lemma C6_base_url_witness :
  Rich.baseUrl {| _url := "http://xo.example/" |} = "http://xo.example/"
  /\ last (trace (snd (Rich.call Demo.env ["vm.import"; "@=disk.xva"] Demo.world0)))
     = Some (EvPost "http://xo.example/api/upload/1" 10 "0123456789").
Proof.
  split; [|reflexivity].
  exact (proj1 (proj2 (proj2 (C6_base_url Demo.env ""
                  {| _url := "http://xo.example/" |} [] Demo.world0)))
           eq_refl).
Defined.

(** C6 fails on the simple variant: with a [ws] server URL the upload is
    sent to a [ws] URL. *)
Lemma C6_counterexample :
  Simple.baseUrl {| _url := "ws://xo.example/api/" |} = "ws://xo.example/api/"
  /\ last (trace (snd (Simple.call Demo.env ["vm.import"; "@=disk.xva"] Demo.world0)))
     = Some (EvPost "ws://xo.example/api/upload/1" 10 "0123456789").
Proof. split; reflexivity. Qed.

(** C7. [connect] fails with [NotConfigured] when the server URL is absent
    and with [NotAuthenticated] when the server URL is there and the token
    is absent, in both cases without any request; with both present it
    builds the transport on the server URL and signs in with the token. *)
Theorem C7_connect (env : Env) (w : world) :
  (present (server (config w)) = false ->
     Rich.connect env w = (Err NotConfigured, w)
     /\ Simple.connect env w = (Err NotConfigured, w))
  /\ (present (server (config w)) = true ->
      present (token (config w)) = false ->
        Rich.connect env w = (Err NotAuthenticated, w)
        /\ Simple.connect env w = (Err NotAuthenticated, w))
  /\ (forall s t,
        server (config w) = Some s -> token (config w) = Some t ->
        s <> "" -> t <> "" ->
        let xo := {| _url := Xo_url env s |} in
        let sign_in := EvCall xo "session.signInWithToken" {[ "token" := VStr t ]} in
        Rich.connect env w =
          match xo_open env xo with
          | Err e => (Err e, log w [EvNewXo s; EvOpen xo])
          | Ok _ =>
              match xo_signIn env xo t with
              | Err e => (Err e, log w [EvNewXo s; EvOpen xo; EvSignIn xo t])
              | Ok _ => (Ok xo, log w [EvNewXo s; EvOpen xo; EvSignIn xo t])
              end
          end
        /\ Simple.connect env w =
             match xo_call env xo "session.signInWithToken" {[ "token" := VStr t ]} with
             | Err e => (Err e, log w [EvNewXo s; sign_in])
             | Ok _ => (Ok xo, log w [EvNewXo s; sign_in])
             end)
  /\ (trace (snd (Rich.connect env w)) <> trace w
      \/ trace (snd (Simple.connect env w)) <> trace w ->
      present (server (config w)) = true /\ present (token (config w)) = true).
Proof.
  split; [|split; [|split]].
  - intros Hs. rewrite Rich_connect_refused, Simple_connect_refused.
    by rewrite Hs.
  - intros Hs Ht. rewrite Rich_connect_refused, Simple_connect_refused.
    by rewrite Hs, Ht.
  - intros s t Hs Ht Hs' Ht'. split.
    + by apply Rich_connect_run.
    + by apply Simple_connect_run.
  - rewrite Rich_connect_refused, Simple_connect_refused.
    destruct (present (server (config w))); simpl; [|by intros [|]].
    destruct (present (token (config w))); simpl; [done|by intros [|]].
Qed.

(** C7 on runs: no server, a server without token, and both. *)
Lemma C7_connect_witness :
  let none := {| config := {| server := None; token := Some "secret" |};
                 files := ∅; trace := [] |} in
  let half := {| config := {| server := Some "ws://xo.example/"; token := None |};
                 files := ∅; trace := [] |} in
  Rich.connect Demo.env none = (Err NotConfigured, none)
  /\ Simple.connect Demo.env half = (Err NotAuthenticated, half)
  /\ Rich.connect Demo.env Demo.world0
     = (Ok {| _url := "ws://xo.example/api/" |},
        log Demo.world0
          [EvNewXo "ws://xo.example/api/";
           EvOpen {| _url := "ws://xo.example/api/" |};
           EvSignIn {| _url := "ws://xo.example/api/" |} "secret"]).
Proof.
  intros none half. split; [|split].
  - exact (proj1 (proj1 (C7_connect Demo.env none) eq_refl)).
  - exact (proj2 (proj1 (proj2 (C7_connect Demo.env half)) eq_refl eq_refl)).
  - refine (proj1 (proj1 (proj2 (proj2 (C7_connect Demo.env Demo.world0)))
                     "ws://xo.example/api/" "secret" eq_refl eq_refl _ _));
      discriminate.
Defined.

(** ** Round trips *)



Lemma prefix_slice p : forall s,
  String.prefix p s = true -> s = p +:+ slice (String.length p) s.
Proof.
  induction p as [|c p IH]; intros s; [done|].
  destruct s as [|d s]; [discriminate|]. simpl.
  destruct (ascii_dec c d) as [<-|]; [|discriminate].
  intros Hp. rewrite append_cons. f_equal. by apply IH.
Qed.









(** ** The command line *)

Lemma main_own (env : Env) arg0 rest op :
  own (camelCase arg0) exports = Some op ->
  Rich.main env (arg0 :: rest) = RunOwn op rest.
Proof.
  intros Hown. unfold Rich.main.
  destruct (String.eqb_spec arg0 "-h") as [->|_]; [discriminate|].
  by rewrite Hown.
Qed.

(** C9. A first token whose camel-case form names an operation of
    [exports] is run locally with the remaining arguments, with or without a
    leading [--]; it is not handed to [call] as a remote method. Both
    variants. *)
Theorem C9_local_dispatch (env : Env) (arg0 : string) (rest : list string)
    (op : operation) (Hown : own (camelCase arg0) exports = Some op) :
  Rich.main env (arg0 :: rest) = RunOwn op rest
  /\ Simple.main env (arg0 :: rest) = RunOwn op rest.
Proof. split; by apply main_own. Qed.

(** C9 on the tokens of the claim, bare and with dashes. *)
Lemma C9_local_dispatch_witness :
  Forall (fun '(arg0, op) =>
            Rich.main Demo.env [arg0; "a=1"] = RunOwn op ["a=1"]
            /\ Simple.main Demo.env [arg0; "a=1"] = RunOwn op ["a=1"])
    [ ("register", OpRegister); ("unregister", OpUnregister);
      ("listCommands", OpListCommands); ("call", OpCall); ("help", OpHelp);
      ("--list-commands", OpListCommands); ("--list-objects", OpListObjects);
      ("list-commands", OpListCommands); ("--register", OpRegister) ].
Proof.
  repeat (apply Forall_cons_2; [by apply C9_local_dispatch|]).
  apply Forall_nil_2.
Defined.

(** A token that names nothing is the remote method of [call]. *)
Example main_remote :
  Rich.main Demo.env ["vm.start"; "id=1"] = RunCall ["vm.start"; "id=1"]
  /\ Rich.main Demo.env ["-h"] = RunHelp
  /\ Rich.main Demo.env [] = RunHelp.
Proof. repeat split. Qed.

(** ** The progress line *)

(** C10. The long format (percentage, size, speed, ETA) is chosen exactly
    when the length of the sample is truthy; a sample whose length is [0]
    or absent gets the short format, filled with the transferred bytes and
    the speed only. Both variants. *)
Theorem C10_progress_format (env : Env) (p : Progress.t) :
  format (Rich.printProgress env p)
  = (if truthy (Progress.length p) then long_format else short_format)
  /\ format (Simple.printProgress env p)
     = (if truthy (Progress.length p) then long_format else short_format)
  /\ long_format <> short_format
  /\ (truthy (Progress.length p) = false ->
      arguments (Rich.printProgress env p)
      = [ VStr (humanFormat env (Some Rich.humanFormatOpts) (Progress.transferred p));
          VStr (humanFormat env (Some Rich.humanFormatOpts) (Progress.speed p)) ]
      /\ arguments (Simple.printProgress env p)
         = [ VStr (humanFormat env None (Progress.transferred p));
             VStr (humanFormat env None (Progress.speed p)) ])
  /\ (truthy (Progress.length p) = true ->
      arguments (Rich.printProgress env p)
      = [ Math_round env (Progress.percentage p);
          VStr (humanFormat env (Some Rich.humanFormatOpts) (Progress.length p));
          VStr (humanFormat env (Some Rich.humanFormatOpts) (Progress.speed p));
          VStr (prettyMs env (times_1e3 env (Progress.eta p))) ]
      /\ arguments (Simple.printProgress env p)
         = [ Math_round env (Progress.percentage p);
             VStr (humanFormat env None (Progress.length p));
             VStr (humanFormat env None (Progress.speed p));
             VStr (prettyMs env (times_1e3 env (Progress.eta p))) ])
  /\ truthy (VNum (Finite 0)) = false
  /\ truthy VUndefined = false.
Proof.
  unfold Rich.printProgress, Simple.printProgress.
  destruct (truthy (Progress.length p)); simpl;
    repeat split; try done; discriminate.
Qed.

(** C10 on samples: a length of zero, no length, and a known length. *)
Lemma C10_progress_format_witness :
  let sample length :=
    {| Progress.length := length; Progress.percentage := VNum (Finite 50);
       Progress.transferred := VNum (Finite 524288);
       Progress.speed := VNum (Finite 1024); Progress.eta := VNum (Finite 512) |} in
  format (Rich.printProgress Demo.env (sample (VNum (Finite 0)))) = short_format
  /\ format (Simple.printProgress Demo.env (sample VUndefined)) = short_format
  /\ format (Rich.printProgress Demo.env (sample (VNum (Finite 1048576)))) = long_format
  /\ List.length (arguments (Rich.printProgress Demo.env (sample (VNum (Finite 0))))) = 2%nat.
Proof.
  intros sample. split; [|split; [|split]].
  - exact (proj1 (C10_progress_format Demo.env (sample (VNum (Finite 0))))).
  - exact (proj1 (proj2 (C10_progress_format Demo.env (sample VUndefined)))).
  - exact (proj1 (C10_progress_format Demo.env (sample (VNum (Finite 1048576))))).
  - rewrite (proj1 (proj1 (proj2 (proj2 (proj2
               (C10_progress_format Demo.env (sample (VNum (Finite 0)))))))
               eq_refl)).
    reflexivity.
Defined.

(** * Further properties of the program *)

(** ** Lists of tokens *)

Section TokenLists.
Variable env : Env.

Lemma forEach_app f args args' params :
  forEach f (args ++ args') params
  = match forEach f args params with
    | Ok params' => forEach f args' params'
    | Err e => Err e
    end.
Proof.
  revert params. induction args as [|arg args IH]; intros params; [done|].
  simpl. destruct (f params arg); [apply IH|done].
Qed.

Lemma forEach_last f args arg params :
  forEach f (args ++ [arg]) params
  = match forEach f args params with
    | Ok params' => f params' arg
    | Err e => Err e
    end.
Proof.
  rewrite forEach_app. destruct (forEach f args params) as [params'|]; [|done].
  simpl. by destruct (f params' arg).
Qed.

Lemma Simple_plain params arg name val :
  Simple.PARAM_RE arg = Some (name, val) ->
  Simple.parseParameter params arg
  = Ok (assign name (if String.eqb name "@" then VStr val else bool_or_string val)
          params).
Proof.
  intros Hre. unfold Simple.parseParameter, bool_or_string. rewrite Hre.
  destruct (String.eqb_spec name "@") as [->|_]; reflexivity.
Qed.

(** The value the rich variant assigns for a matched token, when it
    assigns one. *)
Lemma Rich_stored params arg name val :
  Rich.PARAM_RE arg = Some (name, val) ->
  Rich.parseParameter env params arg = Err InvalidJson
  \/ exists v, Rich.parseParameter env params arg = Ok (assign name v params)
               /\ (_startsWith val "json:" = false ->
                   v = if String.eqb name "@" then VStr val else bool_or_string val).
Proof.
  intros Hre. unfold Rich.parseParameter, mbind, result_bind. rewrite Hre.
  destruct (_startsWith val "json:").
  - destruct (JSON_parse env (slice 5 val)) as [v|]; [|by left].
    right. destruct (String.eqb_spec name "@") as [->|_];
      (eexists; split; [reflexivity|discriminate]).
  - right. unfold bool_or_string.
    destruct (String.eqb_spec name "@") as [->|_];
      [eexists; split; [reflexivity|done]|].
    eexists. split; [reflexivity|]. intros _. simpl.
    by destruct (String.eqb val "true"), (String.eqb val "false").
Qed.

Lemma Simple_forEach_accepts args : forall params,
  (exists params', forEach Simple.parseParameter args params = Ok params')
  <-> Forall (fun arg => Simple.PARAM_RE arg <> None) args.
Proof.
  induction args as [|arg args IH]; intros params; simpl.
  - split; [by constructor|eauto].
  - destruct (Simple.PARAM_RE arg) as [[name val]|] eqn:Hre.
    + rewrite (Simple_plain _ _ _ _ Hre), IH. split.
      * intros Hall. constructor; [by rewrite Hre|done].
      * by inversion 1.
    + assert (Simple.parseParameter params arg = Err (MalformedArgument arg)) as ->
        by (by apply Simple_malformed_iff).
      split; [by intros [? ?]|]. inversion 1; simplify_eq.
Qed.

Lemma Simple_forEach_fails args : forall params e,
  forEach Simple.parseParameter args params = Err e ->
  exists before bad after,
    args = before ++ bad :: after
    /\ Forall (fun arg => Simple.PARAM_RE arg <> None) before
    /\ Simple.PARAM_RE bad = None
    /\ e = MalformedArgument bad.
Proof.
  induction args as [|arg args IH]; intros params e; simpl; [done|].
  destruct (Simple.PARAM_RE arg) as [[name val]|] eqn:Hre.
  - rewrite (Simple_plain _ _ _ _ Hre). intros Hrest.
    destruct (IH _ _ Hrest) as (before & bad & after & -> & Hall & Hbad & ->).
    exists (arg :: before), bad, after. split; [done|].
    split; [|done]. constructor; [by rewrite Hre|done].
  - assert (Simple.parseParameter params arg = Err (MalformedArgument arg)) as ->
      by (by apply Simple_malformed_iff).
    intros [= <-]. by exists [], arg, args.
Qed.

Lemma Rich_step_fails params arg e :
  Rich.parseParameter env params arg = Err e ->
  (e = MalformedArgument arg /\ Rich.PARAM_RE arg = None)
  \/ (e = InvalidJson
      /\ exists name val,
           Rich.PARAM_RE arg = Some (name, val)
           /\ _startsWith val "json:" = true
           /\ JSON_parse env (slice 5 val) = None).
Proof.
  unfold Rich.parseParameter, mbind, result_bind.
  destruct (Rich.PARAM_RE arg) as [[name val]|] eqn:Hre;
    [|intros [= <-]; by left].
  destruct (_startsWith val "json:") eqn:Hjson.
  - destruct (JSON_parse env (slice 5 val)) eqn:Hparse.
    + by destruct (String.eqb name "@").
    + intros [= <-]. right. split; [done|]. by exists name, val.
  - by destruct (String.eqb name "@").
Qed.

Lemma Rich_forEach_fails args : forall params e,
  forEach (Rich.parseParameter env) args params = Err e ->
  exists before bad after,
    args = before ++ bad :: after
    /\ (exists params', forEach (Rich.parseParameter env) before params = Ok params')
    /\ ((e = MalformedArgument bad /\ Rich.PARAM_RE bad = None)
        \/ (e = InvalidJson
            /\ exists name val,
                 Rich.PARAM_RE bad = Some (name, val)
                 /\ _startsWith val "json:" = true
                 /\ JSON_parse env (slice 5 val) = None)).
Proof.
  induction args as [|arg args IH]; intros params e; simpl; [done|].
  destruct (Rich.parseParameter env params arg) as [params'|e'] eqn:Hstep.
  - intros Hrest.
    destruct (IH _ _ Hrest) as (before & bad & after & -> & [q Hq] & Hbad).
    exists (arg :: before), bad, after. split; [done|].
    split; [|done]. exists q. simpl. by rewrite Hstep.
  - intros [= <-]. exists [], arg, args. split; [done|].
    split; [by exists params|]. by apply (Rich_step_fails params).
Qed.
End TokenLists.

(** X1. When a name comes again, the last token decides: after any accepted
    tokens, one more valid token [name=value] (another name than [@] and
    [__proto__], no [json:] tag in the rich variant) sets [name] to its
    coerced value and leaves every other own property as it was. *)
Theorem X1_last_write_wins (env : Env) (args : list string)
    (params : object) (arg name val : string)
    (Hgrammar : token_grammar arg name val) (Hname : name <> "@")
    (Hproto : name <> "__proto__") :
  (Simple.parseParameters args = Ok params ->
   has_line_terminator val = false ->
   exists params',
     Simple.parseParameters (args ++ [arg]) = Ok params'
     /\ params' !! name = Some (bool_or_string val)
     /\ prototype_of params' = prototype_of params
     /\ forall other, other <> name -> params' !! other = params !! other)
  /\ (Rich.parseParameters env args = Ok params ->
      _startsWith val "json:" = false ->
      exists params',
        Rich.parseParameters env (args ++ [arg]) = Ok params'
        /\ params' !! name = Some (bool_or_string val)
        /\ prototype_of params' = prototype_of params
        /\ forall other, other <> name -> params' !! other = params !! other).
Proof.
  split.
  - intros Hargs Hlt. exists (<[ name := bool_or_string val ]> params).
    unfold Simple.parseParameters in *. rewrite forEach_last, Hargs.
    assert (Simple.PARAM_RE arg = Some (name, val)) as Hre
      by (by apply Simple_PARAM_RE_spec).
    rewrite (Simple_plain _ _ _ _ Hre), assign_plain by done.
    apply String.eqb_neq in Hname as ->.
    split; [done|]. split; [apply object_lookup_insert_eq|]. split; [done|].
    intros other Hother. by apply object_lookup_insert_ne.
  - intros Hargs Hjson. exists (<[ name := bool_or_string val ]> params).
    unfold Rich.parseParameters in *. rewrite forEach_last, Hargs.
    rewrite (Rich_untagged env _ _ _ _ Hgrammar Hname Hjson), assign_plain by done.
    split; [done|]. split; [apply object_lookup_insert_eq|]. split; [done|].
    intros other Hother. by apply object_lookup_insert_ne.
Qed.

Lemma X1_last_write_wins_witness :
  exists params',
    Simple.parseParameters (["a=1"; "b=2"] ++ ["a=true"]) = Ok params'
    /\ params' !! "a" = Some (VBool true)
    /\ prototype_of params' = ObjectPrototype
    /\ forall other, other <> "a" ->
         params' !! other = ({[ "a" := VStr "1"; "b" := VStr "2" ]} : object) !! other.
Proof.
  refine (proj1 (X1_last_write_wins Demo.env ["a=1"; "b=2"]
                   {[ "a" := VStr "1"; "b" := VStr "2" ]} "a=true" "a" "true" _ _ _)
            _ _); try reflexivity; try discriminate.
  apply (grammar_intro "a"); [discriminate|]. simpl. split; [discriminate|done].
Defined.

(** [__proto__] among the names. A string assigned to [__proto__] is
    ignored; an object or [null] becomes the prototype; once [null] took
    the prototype away, the same assignment defines an own property. *)
Example proto_assignments :
  Simple.parseParameters ["__proto__=x"; "a=1"] = Ok {[ "a" := VStr "1" ]}
  /\ Rich.parseParameters Demo.env ["__proto__=json:[1]"]
     = Ok {| properties := ∅; prototype_of := Parsed (VArr [VNum (Finite 1)]) |}
  /\ Rich.parseParameters Demo.env ["__proto__=json:null"; "__proto__=x"]
     = Ok {| properties := {[ "__proto__" := VStr "x" ]};
             prototype_of := NoPrototype |}.
Proof. repeat split. Qed.

(** X2. The simple variant accepts a list of tokens exactly when every token
    matches its pattern; when it fails, the error is [MalformedArgument] of
    the first token that does not match. *)
Theorem X2_simple_all_or_first (args : list string) :
  ((exists params, Simple.parseParameters args = Ok params)
   <-> Forall (fun arg => Simple.PARAM_RE arg <> None) args)
  /\ forall e, Simple.parseParameters args = Err e ->
       exists before bad after,
         args = before ++ bad :: after
         /\ Forall (fun arg => Simple.PARAM_RE arg <> None) before
         /\ Simple.PARAM_RE bad = None
         /\ e = MalformedArgument bad.
Proof.
  split; [apply Simple_forEach_accepts|]. intros e. apply Simple_forEach_fails.
Qed.

(** X3. The rich variant fails on a list of tokens only at a token that
    follows accepted ones, and only in two ways: [MalformedArgument] of a
    token that does not match the pattern, or [InvalidJson] for a [json:]
    value that [JSON.parse] refuses. *)
Theorem X3_rich_failures (env : Env) (args : list string) (e : error)
    (Hfail : Rich.parseParameters env args = Err e) :
  exists before bad after,
    args = before ++ bad :: after
    /\ (exists params, Rich.parseParameters env before = Ok params)
    /\ ((e = MalformedArgument bad /\ Rich.PARAM_RE bad = None)
        \/ (e = InvalidJson
            /\ exists name val,
                 Rich.PARAM_RE bad = Some (name, val)
                 /\ _startsWith val "json:" = true
                 /\ JSON_parse env (slice 5 val) = None)).
Proof. by apply Rich_forEach_fails. Qed.

Lemma X3_rich_failures_witness :
  exists before bad after,
    ["a=1"; "b=json:{"; "c"] = before ++ bad :: after
    /\ (exists params, Rich.parseParameters Demo.env before = Ok params)
    /\ ((InvalidJson = MalformedArgument bad /\ Rich.PARAM_RE bad = None)
        \/ (InvalidJson = InvalidJson
            /\ exists name val,
                 Rich.PARAM_RE bad = Some (name, val)
                 /\ _startsWith val "json:" = true
                 /\ JSON_parse Demo.env (slice 5 val) = None)).
Proof.
  exact (X3_rich_failures Demo.env ["a=1"; "b=json:{"; "c"] InvalidJson eq_refl).
Defined.

Section StoredNames.
Variable f : object -> string -> result object.
Variable pattern : string -> option (string * string).
Variable stored : string -> string -> value -> Prop.
Hypothesis step : forall params arg params',
  f params arg = Ok params' ->
  exists name val v,
    pattern arg = Some (name, val) /\ stored name val v
    /\ params' = assign name v params.

Lemma forEach_values args : forall params0 params,
  forEach f args params0 = Ok params ->
  forall key v,
    params !! key = Some v ->
    params0 !! key = Some v
    \/ exists arg val,
         arg ∈ args /\ pattern arg = Some (key, val) /\ stored key val v.
Proof.
  induction args as [|arg args IH]; intros params0 params; simpl.
  - intros [= <-] key v Hv. by left.
  - destruct (f params0 arg) as [params1|] eqn:Hstep; [|done].
    intros Hrest key v Hv.
    destruct (IH _ _ Hrest key v Hv) as [Hone|(a & val & Hin & Ha & Hs)].
    + destruct (step _ _ _ Hstep) as (name & val & v' & Hre & Hs & ->).
      apply assign_lookup_Some in Hone as [[-> ->]|Hold]; [|by left].
      right. exists arg, val. split; [by left|done].
    + right. exists a, val. split; [by right|done].
Qed.

Lemma forEach_prototype args : forall params0 params,
  forEach f args params0 = Ok params ->
  (forall arg val, arg ∈ args -> pattern arg <> Some ("__proto__", val)) ->
  prototype_of params = prototype_of params0.
Proof.
  induction args as [|arg args IH]; intros params0 params; simpl.
  - by intros [= <-].
  - destruct (f params0 arg) as [params1|] eqn:Hstep; [|done].
    intros Hrest Hnone.
    rewrite (IH _ _ Hrest) by (intros a val Hin; apply Hnone; by right).
    destruct (step _ _ _ Hstep) as (name & val & v & Hre & _ & ->).
    rewrite assign_plain; [done|].
    intros ->. by apply (Hnone arg val); [left|].
Qed.

Lemma forEach_names args : forall params0 params,
  forEach f args params0 = Ok params ->
  forall key,
    (is_Some (params !! key) ->
       is_Some (params0 !! key)
       \/ exists arg val, arg ∈ args /\ pattern arg = Some (key, val))
    /\ (key <> "__proto__" ->
        is_Some (params0 !! key)
        \/ (exists arg val, arg ∈ args /\ pattern arg = Some (key, val)) ->
        is_Some (params !! key)).
Proof.
  intros params0 params Hrun key. split.
  - intros [v Hv].
    destruct (forEach_values _ _ _ Hrun key v Hv) as [?|(arg & val & ? & ? & _)];
      [by left|right; by exists arg, val].
  - intros Hkey. revert params0 Hrun.
    induction args as [|arg args IH]; intros params0; simpl.
    + intros [= <-] [?|(? & ? & Hin & _)]; [done|]. by apply elem_of_nil in Hin.
    + destruct (f params0 arg) as [params1|] eqn:Hstep; [|done].
      intros Hrest Hfrom. apply (IH _ Hrest).
      destruct (step _ _ _ Hstep) as (name & val & v & Hre & _ & ->).
      destruct (decide (name = key)) as [->|Hne].
      * left. rewrite assign_plain by done. rewrite object_lookup_insert_eq. by eexists.
      * rewrite assign_lookup_ne by done.
        destruct Hfrom as [Hold|(a & v' & Hin & Ha)]; [by left|].
        apply elem_of_cons in Hin as [->|Hin].
        -- rewrite Hre in Ha. by injection Ha as -> _.
        -- right. by exists a, v'.
Qed.
End StoredNames.

Lemma Simple_step params arg params' :
  Simple.parseParameter params arg = Ok params' ->
  exists name val v,
    Simple.PARAM_RE arg = Some (name, val) /\ simple_stored name val v
    /\ params' = assign name v params.
Proof.
  destruct (Simple.PARAM_RE arg) as [[name val]|] eqn:Hre.
  - rewrite (Simple_plain _ _ _ _ Hre). intros [= <-].
    by exists name, val, (if String.eqb name "@" then VStr val else bool_or_string val).
  - assert (Simple.parseParameter params arg = Err (MalformedArgument arg)) as ->
      by (by apply Simple_malformed_iff).
    done.
Qed.

Lemma Rich_step (env : Env) params arg params' :
  Rich.parseParameter env params arg = Ok params' ->
  exists name val v,
    Rich.PARAM_RE arg = Some (name, val)
    /\ (_startsWith val "json:" = false -> simple_stored name val v)
    /\ params' = assign name v params.
Proof.
  destruct (Rich.PARAM_RE arg) as [[name val]|] eqn:Hre.
  - destruct (Rich_stored env params _ _ _ Hre) as [->|(v & -> & Hv)]; [done|].
    intros [= <-]. by exists name, val, v.
  - assert (Rich.parseParameter env params arg = Err (MalformedArgument arg)) as ->
      by (by apply Rich_malformed_iff).
    done.
Qed.

(** In the simple variant the values are strings and booleans, which the
    setter of [__proto__] ignores: the object keeps [Object.prototype] and
    gets no own [__proto__]. *)
Lemma Simple_step_plain params arg params' :
  Simple.parseParameter params arg = Ok params' ->
  prototype_of params = ObjectPrototype /\ params !! "__proto__" = None ->
  prototype_of params' = ObjectPrototype /\ params' !! "__proto__" = None.
Proof.
  intros Hstep [Hproto Hown].
  destruct (Simple_step _ _ _ Hstep) as (name & val & v & _ & Hv & ->).
  destruct (String.eqb_spec name "__proto__") as [->|Hname].
  - unfold assign. simpl. rewrite Hown, Hproto. simpl.
    unfold simple_stored in Hv. simpl in Hv. subst v. unfold bool_or_string.
    by destruct (String.eqb val "true"), (String.eqb val "false").
  - rewrite assign_plain by done. split; [done|].
    by rewrite object_lookup_insert_ne.
Qed.

Lemma Simple_forEach_plain args : forall params0 params,
  forEach Simple.parseParameter args params0 = Ok params ->
  prototype_of params0 = ObjectPrototype /\ params0 !! "__proto__" = None ->
  prototype_of params = ObjectPrototype /\ params !! "__proto__" = None.
Proof.
  induction args as [|arg args IH]; intros params0 params; simpl.
  - by intros [= <-].
  - destruct (Simple.parseParameter params0 arg) as [params1|] eqn:Hstep; [|done].
    intros Hrest Hplain. apply (IH _ _ Hrest).
    by apply (Simple_step_plain _ _ _ Hstep).
Qed.

(** X4. The own properties of the parsed object are named by the tokens.
    Simple variant: a name is an own property if and only if it is not
    [__proto__] and some token of the list carries it; the prototype stays
    [Object.prototype]. Rich variant: every own property is the name of a
    token, and the name of a token is an own property when it is not
    [__proto__]; without a token named [__proto__] the prototype stays
    [Object.prototype]. *)
Theorem X4_names_of_tokens (env : Env) (args : list string) (key : string) :
  (forall params, Simple.parseParameters args = Ok params ->
     (is_Some (params !! key)
      <-> key <> "__proto__"
          /\ exists arg val, arg ∈ args /\ Simple.PARAM_RE arg = Some (key, val))
     /\ prototype_of params = ObjectPrototype)
  /\ (forall params, Rich.parseParameters env args = Ok params ->
        (is_Some (params !! key) ->
           exists arg val, arg ∈ args /\ Rich.PARAM_RE arg = Some (key, val))
        /\ (key <> "__proto__" ->
            (exists arg val, arg ∈ args /\ Rich.PARAM_RE arg = Some (key, val)) ->
            is_Some (params !! key))
        /\ ((forall arg val,
               arg ∈ args -> Rich.PARAM_RE arg <> Some ("__proto__", val)) ->
            prototype_of params = ObjectPrototype)).
Proof.
  split; intros params Hparse.
  - destruct (forEach_names _ _ _ Simple_step args ∅ params Hparse key)
      as [Hown Htoken].
    destruct (Simple_forEach_plain args ∅ params Hparse) as [Hproto Hnone];
      [done|].
    split; [|done]. split.
    + intros Hsome. split.
      * intros ->. rewrite Hnone in Hsome. by destruct Hsome.
      * destruct (Hown Hsome) as [[? Hempty]|?]; [|done].
        by rewrite object_lookup_empty in Hempty.
    + intros [Hkey Hfrom]. apply Htoken; [done|by right].
  - destruct (forEach_names _ _ _ (Rich_step env) args ∅ params Hparse key)
      as [Hown Htoken].
    split; [|split].
    + intros Hsome. destruct (Hown Hsome) as [[? Hempty]|?]; [|done].
      by rewrite object_lookup_empty in Hempty.
    + intros Hkey Hfrom. apply Htoken; [done|by right].
    + intros Hnone.
      by rewrite (forEach_prototype _ _ _ (Rich_step env) args ∅ params Hparse Hnone).
Qed.

(** X5. In the simple variant every stored value is a string or a boolean
    and stems from a token of that name: the raw text under [@], else the
    boolean for [true] and [false] and the text otherwise. *)
Theorem X5_simple_values (args : list string) (params : object)
    (key : string) (v : value)
    (Hparse : Simple.parseParameters args = Ok params)
    (Hv : params !! key = Some v) :
  (exists arg val,
     arg ∈ args /\ Simple.PARAM_RE arg = Some (key, val)
     /\ v = if String.eqb key "@" then VStr val else bool_or_string val)
  /\ ((exists s, v = VStr s) \/ (exists b, v = VBool b))
  /\ (key = "@" -> exists s, v = VStr s).
Proof.
  destruct (forEach_values _ _ _ Simple_step args ∅ params Hparse key v Hv)
    as [Hempty|(arg & val & Hin & Hre & Hs)];
    [by rewrite object_lookup_empty in Hempty|].
  unfold simple_stored in Hs.
  split; [by exists arg, val|]. split.
  - subst v. destruct (String.eqb key "@"); [by eauto|].
    unfold bool_or_string.
    destruct (String.eqb val "true"); [by eauto|].
    destruct (String.eqb val "false"); by eauto.
  - intros ->. subst v. by eauto.
Qed.

Lemma X5_simple_values_witness :
  (exists arg val,
     arg ∈ ["@=true"; "a=false"] /\ Simple.PARAM_RE arg = Some ("@", val)
     /\ VStr "true" = if String.eqb "@" "@" then VStr val else bool_or_string val)
  /\ ((exists s, VStr "true" = VStr s) \/ (exists b, VStr "true" = VBool b))
  /\ ("@" = "@" -> exists s, VStr "true" = VStr s).
Proof.
  exact (X5_simple_values ["@=true"; "a=false"]
           {[ "@" := VStr "true"; "a" := VBool false ]} "@" (VStr "true")
           eq_refl eq_refl).
Defined.

(** ** A whole call *)

Section WholeCall.
Variable env : Env.

Lemma Rich_call_run method args' w params :
  Rich.parseParameters env args' = Ok params ->
  Rich.call env (method :: args') w
  = match Rich.connect env w with
    | (Err e, w1) => (Err e, w1)
    | (Ok xo, w1) =>
        let sent := delete "@" params in
        let w2 := log w1 [EvCall xo method sent] in
        match xo_call env xo method sent with
        | Err e => (Err e, w2)
        | Ok result =>
            Rich.handleResult env (Rich.baseUrl xo) (get "@" params) result w2
        end
    end.
Proof.
  intros Hparse. unfold Rich.call. rewrite Hparse.
  cbv [mbind M_bind lift emit].
  destruct (Rich.connect env w) as [[xo|e] w1]; [|done].
  simpl. by destruct (xo_call env xo method _).
Qed.

Lemma Simple_call_run method args' w params :
  Simple.parseParameters args' = Ok params ->
  Simple.call env (method :: args') w
  = match Simple.connect env w with
    | (Err e, w1) => (Err e, w1)
    | (Ok xo, w1) =>
        let sent := delete "@" params in
        let w2 := log w1 [EvCall xo method sent] in
        match xo_call env xo method sent with
        | Err e => (Err e, w2)
        | Ok result =>
            Simple.handleResult env (Simple.baseUrl xo) (get "@" params) result w2
        end
    end.
Proof.
  intros Hparse. unfold Simple.call. rewrite Hparse.
  cbv [mbind M_bind lift emit].
  destruct (Simple.connect env w) as [[xo|e] w1]; [|done].
  simpl. by destruct (xo_call env xo method _).
Qed.
End WholeCall.

(** X6. [call] asks nothing of the world when its arguments are bad: without
    a command name it fails with [MissingCommandName], and when a parameter
    token is refused it fails with the error of the parser, in both cases
    before connecting and with the world as it was. Both variants. *)
Theorem X6_call_bad_arguments (env : Env) (method : string)
    (args' : list string) (w : world) :
  Rich.call env [] w = (Err MissingCommandName, w)
  /\ Simple.call env [] w = (Err MissingCommandName, w)
  /\ (forall e, Rich.parseParameters env args' = Err e ->
        Rich.call env (method :: args') w = (Err e, w))
  /\ (forall e, Simple.parseParameters args' = Err e ->
        Simple.call env (method :: args') w = (Err e, w)).
Proof.
  split; [done|]. split; [done|]. split; intros e Hparse.
  - unfold Rich.call. by rewrite Hparse.
  - unfold Simple.call. by rewrite Hparse.
Qed.

(** X7. With accepted parameters but credentials missing, [call] fails with
    [NotConfigured] (no server URL) or [NotAuthenticated] (no token) and
    leaves the world as it was: no remote call is made. Each variant, on
    the tokens it accepts. *)
Theorem X7_call_without_credentials (env : Env) (method : string)
    (args' : list string) (w : world) :
  ((exists params, Rich.parseParameters env args' = Ok params) ->
     (present (server (config w)) = false ->
        Rich.call env (method :: args') w = (Err NotConfigured, w))
     /\ (present (server (config w)) = true ->
         present (token (config w)) = false ->
         Rich.call env (method :: args') w = (Err NotAuthenticated, w)))
  /\ ((exists params, Simple.parseParameters args' = Ok params) ->
      (present (server (config w)) = false ->
         Simple.call env (method :: args') w = (Err NotConfigured, w))
      /\ (present (server (config w)) = true ->
          present (token (config w)) = false ->
          Simple.call env (method :: args') w = (Err NotAuthenticated, w))).
Proof.
  split; intros [params Hparse].
  - rewrite (Rich_call_run env _ _ _ _ Hparse), Rich_connect_refused.
    split; [by intros ->|by intros -> ->].
  - rewrite (Simple_call_run env _ _ _ _ Hparse), Simple_connect_refused.
    split; [by intros ->|by intros -> ->].
Qed.

(** X7 on runs: the rich variant accepts [id=json:1], which the simple one
    accepts too, and [a=] with a line feed, which the simple one refuses. *)
Lemma X7_call_without_credentials_witness :
  let w := {| config := {| server := None; token := None |};
              files := ∅; trace := [] |} in
  let half := {| config := {| server := Some "ws://xo.example/"; token := None |};
                 files := ∅; trace := [] |} in
  Rich.call Demo.env ["vm.start"; "a=" +:+ LF] w = (Err NotConfigured, w)
  /\ Simple.call Demo.env ["vm.start"; "id=json:1"] half
     = (Err NotAuthenticated, half).
Proof.
  intros w half. split.
  - refine (proj1 (proj1 (X7_call_without_credentials Demo.env "vm.start"
                           ["a=" +:+ LF] w) _) eq_refl).
    by eexists.
  - refine (proj2 (proj2 (X7_call_without_credentials Demo.env "vm.start"
                           ["id=json:1"] half) _) eq_refl eq_refl).
    by eexists.
Defined.

(** X8. Once connected, [call] makes exactly one remote call, of the given
    method with the parsed parameters less [@]: it is the first request
    after connecting, and whatever it answers, the requests that follow are
    none of the transport. A failure of that call is the failure of [call];
    a result that is not a transfer sentinel is returned as it is, and
    nothing else is requested. Each variant, with its base URL. *)
Theorem X8_call_result (env : Env) (method : string) (args' : list string)
    (w w1 : world) (params : object) (xo : Xo) :
  (Rich.parseParameters env args' = Ok params ->
   Rich.connect env w = (Ok xo, w1) ->
   call_outcome env (Rich.baseUrl xo) xo method params w1
     (Rich.call env (method :: args') w))
  /\ (Simple.parseParameters args' = Ok params ->
      Simple.connect env w = (Ok xo, w1) ->
      call_outcome env (Simple.baseUrl xo) xo method params w1
        (Simple.call env (method :: args') w)).
Proof.
  split; intros Hparse Hconnect; unfold call_outcome.
  - rewrite (Rich_call_run env _ _ _ _ Hparse), Hconnect. cbv zeta.
    split; [apply object_lookup_delete_eq|].
    split; [intros key Hkey; by apply object_lookup_delete_ne|].
    split; [|split].
    + destruct (xo_call env xo method _) as [result|e]; [|by exists []].
      destruct (handleResult_emits env (Rich.baseUrl xo) (get "@" params) result
                  (log w1 [EvCall xo method (delete "@" params)]))
        as (evs & Htrace & Hall & _).
      exists evs. split; [|done]. rewrite Htrace. simpl.
      by rewrite <- app_assoc.
    + by intros e ->.
    + intros result -> Hshape. by apply pass_through.
  - rewrite (Simple_call_run env _ _ _ _ Hparse), Hconnect. cbv zeta.
    split; [apply object_lookup_delete_eq|].
    split; [intros key Hkey; by apply object_lookup_delete_ne|].
    split; [|split].
    + destruct (xo_call env xo method _) as [result|e]; [|by exists []].
      destruct (Simple_handleResult_emits env (Simple.baseUrl xo) (get "@" params)
                  result (log w1 [EvCall xo method (delete "@" params)]))
        as (evs & Htrace & Hall & _).
      exists evs. split; [|done]. rewrite Htrace. simpl.
      by rewrite <- app_assoc.
    + by intros e ->.
    + intros result -> Hshape.
      rewrite handleResult_same; [by apply pass_through|].
      intros v ->. by destruct (Hshape _ _ eq_refl).
Qed.

(** X8 on runs: a plain result comes back after the one call; on an upload
    sentinel the call is followed by the requests of the upload only. *)
Lemma X8_call_result_witness :
  let xo := {| _url := "ws://xo.example/api/" |} in
  let w1 := log Demo.world0 [EvNewXo "ws://xo.example/api/"; EvOpen xo;
                             EvSignIn xo "secret"] in
  Rich.call Demo.env ["vm.start"; "id=1"; "@=disk.xva"] Demo.world0
  = (Ok (VBool true), log w1 [EvCall xo "vm.start" {[ "id" := VStr "1" ]}])
  /\ exists evs,
       trace (snd (Rich.call Demo.env ["vm.import"; "@=disk.xva"] Demo.world0))
       = trace w1 ++ EvCall xo "vm.import" ∅ :: evs
       /\ Forall (resolved_against Demo.env "http://xo.example/api/") evs.
Proof.
  intros xo w1. split.
  - refine (proj2 (proj2 (proj2 (proj2 (proj1 (X8_call_result Demo.env "vm.start"
                                 ["id=1"; "@=disk.xva"] Demo.world0 w1
                                 {[ "id" := VStr "1"; "@" := VStr "disk.xva" ]} xo)
                          eq_refl eq_refl))))
              (VBool true) eq_refl _).
    intros key v Heq. discriminate.
  - exact (proj1 (proj2 (proj2 (proj1 (X8_call_result Demo.env "vm.import"
                                 ["@=disk.xva"] Demo.world0 w1
                                 {[ "@" := VStr "disk.xva" ]} xo)
                          eq_refl eq_refl)))).
Defined.

(** ** Downloads and the local files *)

Section Files.
Variable env : Env.

Lemma get_from base path file w :
  Simple.handleResult env base (VStr file) (VObj [("$getFrom", VStr path)]) w
  = let url := resolveUrl env base path in
    ((if snd (http_get env url) then Ok VUndefined else Err TransferFailed),
     {| config := config w;
        files := <[ file := fst (http_get env url) ]> (files w);
        trace := trace w ++ [EvCreateWriteStream file; EvGet url] |}).
Proof.
  unfold Simple.handleResult. simpl. run. simpl.
  destruct (http_get env (resolveUrl env base path)) as [received finished].
  simpl. rewrite insert_insert_eq, <- app_assoc. simpl.
  by destruct finished.
Qed.

Lemma Rich_get_from base path file w :
  Rich.handleResult env base (VStr file) (VObj [("$getFrom", VStr path)]) w
  = let url := resolveUrl env base path in
    if http_declares_length env url then
      (Err TypeError,
       {| config := config w; files := <[ file := "" ]> (files w);
          trace := trace w ++ [EvCreateWriteStream file; EvGet url] |})
    else
      ((if snd (http_get env url) then Ok VUndefined else Err TransferFailed),
       {| config := config w;
          files := <[ file := fst (http_get env url) ]> (files w);
          trace := trace w ++ [EvCreateWriteStream file; EvGet url] |}).
Proof.
  unfold Rich.handleResult, download_with_length. simpl. run. simpl.
  destruct (http_declares_length env (resolveUrl env base path)).
  { unfold throw. by rewrite <- app_assoc. }
  destruct (http_get env (resolveUrl env base path)) as [received finished].
  simpl. run. simpl. rewrite insert_insert_eq, <- app_assoc. simpl.
  by destruct finished.
Qed.

Lemma keeps_pure {A : Type} file (m : M A) :
  (forall w, files (snd (m w)) = files w) -> keeps_other_files file m.
Proof. intros Hm w path _. by rewrite Hm. Qed.

Lemma download_keeps file url :
  keeps_other_files file (createWriteStream file ≫= download env url).
Proof.
  destruct file as [| | | |f| |]; try (by apply keeps_pure).
  intros w path Hpath. unfold createWriteStream, download. run. simpl.
  destruct (http_get env url) as [received finished]. simpl.
  assert (f <> path) as Hne by congruence.
  destruct finished; simpl; by rewrite !lookup_insert_ne.
Qed.

Lemma download_with_length_keeps file url :
  keeps_other_files file (createWriteStream file ≫= download_with_length env url).
Proof.
  destruct file as [| | | |f| |]; try (by apply keeps_pure).
  intros w path Hpath. unfold createWriteStream, download_with_length. run. simpl.
  assert (f <> path) as Hne by congruence.
  destruct (http_declares_length env url); [simpl; by rewrite lookup_insert_ne|].
  destruct (http_get env url) as [received finished]. simpl.
  destruct finished; simpl; by rewrite !lookup_insert_ne.
Qed.

Lemma upload_keeps_all file url w :
  files (snd ((stat file ≫= upload env url file) w)) = files w.
Proof.
  destruct file as [| | | |f| |]; try reflexivity.
  unfold stat, upload, createReadStream. run. simpl.
  destruct (files w !! f) as [contents|] eqn:Hfile; [|reflexivity].
  simpl. rewrite Hfile. simpl.
  by destruct (http_post env url _ contents).
Qed.

Lemma getFrom_shape result :
  isObject result && (List.length (getKeys result) =? 1)%nat = true ->
  default "" (head (getKeys result)) = "$getFrom" ->
  (forall v, result <> VObj [("$getFrom", v)]) -> False.
Proof.
  intros Hone Hget Hnot.
  destruct (only_getFrom result Hone Hget) as [v ->]. by apply (Hnot v).
Qed.

Lemma upload_files base file result w :
  files (snd ((resolve env base (get_prop result
             (default "" (head (getKeys result))))
           ≫= (fun url => stat file
                 ≫= fun length => upload env url file length)) w)) = files w.
Proof.
  destruct (get_prop result _) as [| | | |to| |]; try reflexivity.
  apply (upload_keeps_all file (resolveUrl env base to) w).
Qed.

Lemma handleResult_files base file result w :
  (forall path, file <> VStr path ->
     files (snd (Rich.handleResult env base file result w)) !! path
     = files w !! path)
  /\ ((forall v, result <> VObj [("$getFrom", v)]) ->
      files (snd (Rich.handleResult env base file result w)) = files w).
Proof.
  unfold Rich.handleResult.
  destruct (isObject result && _) eqn:Hone; [|by split].
  destruct (String.eqb_spec (default "" (head (getKeys result))) "$getFrom")
    as [Hget|Hget].
  - split.
    + intros path Hpath.
      destruct (get_prop result _) as [| | | |to| |]; try reflexivity.
      apply (download_with_length_keeps file (resolveUrl env base to) w path Hpath).
    + intros Hnot. by destruct (getFrom_shape result Hone Hget Hnot).
  - destruct (String.eqb _ "$sendTo"); [|by split].
    pose proof (upload_files base file result w) as Hup.
    split; [intros path _|intros _]; by rewrite Hup.
Qed.

Lemma Simple_handleResult_files base file result w :
  (forall path, file <> VStr path ->
     files (snd (Simple.handleResult env base file result w)) !! path
     = files w !! path)
  /\ ((forall v, result <> VObj [("$getFrom", v)]) ->
      files (snd (Simple.handleResult env base file result w)) = files w).
Proof.
  unfold Simple.handleResult.
  destruct (isObject result && _) eqn:Hone; [|by split].
  destruct (String.eqb_spec (default "" (head (getKeys result))) "$getFrom")
    as [Hget|Hget].
  - split.
    + intros path Hpath.
      destruct (get_prop result _) as [| | | |to| |]; try reflexivity.
      apply (download_keeps file (resolveUrl env base to) w path Hpath).
    + intros Hnot. by destruct (getFrom_shape result Hone Hget Hnot).
  - destruct (String.eqb _ "$sendTo"); [|by split].
    pose proof (upload_files base file result w) as Hup.
    split; [intros path _|intros _]; by rewrite Hup.
Qed.

Lemma send_outcome base file v w :
  match fst ((resolve env base v
              ≫= (fun url => stat file
                    ≫= fun length => upload env url file length)) w) with
  | Ok (VObj _) => False
  | _ => True
  end.
Proof.
  run. destruct v; try done. destruct file as [| | | |f| |]; try done. simpl.
  destruct (files w !! f) as [contents|] eqn:Hfile; [|done].
  simpl. rewrite Hfile. simpl. by destruct (http_post env _ _ contents).
Qed.

Lemma sentinel_outcome base file key v w :
  key = "$getFrom" \/ key = "$sendTo" ->
  match fst (Rich.handleResult env base file (VObj [(key, v)]) w) with
  | Ok (VObj _) => False
  | _ => True
  end.
Proof.
  intros [->| ->]; unfold Rich.handleResult; simpl; [|apply send_outcome].
  unfold download_with_length. run.
  destruct v; try done. destruct file; try done. simpl.
  destruct (http_declares_length env _); [done|].
  destruct (http_get env _) as [received finished]. by destruct finished.
Qed.

Lemma Simple_sentinel_outcome base file key v w :
  key = "$getFrom" \/ key = "$sendTo" ->
  match fst (Simple.handleResult env base file (VObj [(key, v)]) w) with
  | Ok (VObj _) => False
  | _ => True
  end.
Proof.
  intros [->| ->]; unfold Simple.handleResult; simpl; [|apply send_outcome].
  run.
  destruct v; try done. destruct file; try done. simpl.
  destruct (http_get env _) as [received finished]. by destruct finished.
Qed.
End Files.

(** The file of a transfer is read as [params['@']], through the
    prototype when the object has no [@] of its own. *)
Example file_through_prototype :
  let at_sign := String dquote "@" +:+ String dquote "" in
  let path := String dquote "disk.xva" +:+ String dquote "" in
  last (trace (snd (Rich.call Demo.env
                      ["vm.import"; "__proto__=json:{" +:+ at_sign +:+ ":" +:+ path +:+ "}"]
                      Demo.world0)))
  = Some (EvPost "http://xo.example/api/upload/1" 10 "0123456789").
Proof. reflexivity. Qed.

(** X9. On [{"$getFrom": path}] with a local file: the file is created or
    truncated and a GET goes to the resolved URL. In the simple variant the
    file then holds exactly the bytes that arrived; the outcome is
    [undefined] when the stream finished and [TransferFailed] otherwise, the
    bytes written so far being kept. The rich variant does the same when the
    response declares no length; when it declares one, the run ends with a
    TypeError and the file stays empty. *)
Theorem X9_get_from (env : Env) (base path file : string) (w : world) :
  let url := resolveUrl env base path in
  let requested := trace w ++ [EvCreateWriteStream file; EvGet url] in
  let expected :=
    ((if snd (http_get env url) then Ok VUndefined else Err TransferFailed),
     {| config := config w;
        files := <[ file := fst (http_get env url) ]> (files w);
        trace := requested |}) in
  let refused :=
    (Err TypeError,
     {| config := config w; files := <[ file := "" ]> (files w);
        trace := requested |}) in
  Simple.handleResult env base (VStr file) (VObj [("$getFrom", VStr path)]) w
  = expected
  /\ Rich.handleResult env base (VStr file) (VObj [("$getFrom", VStr path)]) w
     = (if http_declares_length env url then refused else expected)
  /\ files (snd expected) !! file = Some (fst (http_get env url))
  /\ files (snd refused) !! file = Some "".
Proof.
  intros url requested expected refused.
  split; [apply get_from|]. split; [apply Rich_get_from|].
  split; apply lookup_insert_eq.
Qed.

(** X10. The dispatcher writes no file but the one named by [@]: every other
    path keeps its contents whatever the result is, and unless the result is
    a [$getFrom] sentinel no file changes at all (an upload only reads).
    Both variants. *)
Theorem X10_files_kept (env : Env) (base : string) (file result : value)
    (w : world) :
  (forall path, file <> VStr path ->
     files (snd (Rich.handleResult env base file result w)) !! path
     = files w !! path
     /\ files (snd (Simple.handleResult env base file result w)) !! path
        = files w !! path)
  /\ ((forall v, result <> VObj [("$getFrom", v)]) ->
      files (snd (Rich.handleResult env base file result w)) = files w
      /\ files (snd (Simple.handleResult env base file result w)) = files w).
Proof.
  destruct (handleResult_files env base file result w) as [Hother Hall].
  destruct (Simple_handleResult_files env base file result w) as [Hother' Hall'].
  split.
  - intros path Hpath. split; [exact (Hother path Hpath)|exact (Hother' path Hpath)].
  - intros Hnot. split; [exact (Hall Hnot)|exact (Hall' Hnot)].
Qed.

(** X11. A transfer sentinel is never handed back: on a one-key object keyed
    [$getFrom] or [$sendTo] the dispatcher fails or yields [undefined] (a
    download) or the text of a response (an upload), never an object. Both
    variants. *)
Theorem X11_sentinel_consumed (env : Env) (base : string) (file v : value)
    (key : string) (w : world)
    (Hkey : key = "$getFrom" \/ key = "$sendTo") :
  match fst (Rich.handleResult env base file (VObj [(key, v)]) w) with
  | Ok (VObj _) => False
  | _ => True
  end
  /\ match fst (Simple.handleResult env base file (VObj [(key, v)]) w) with
     | Ok (VObj _) => False
     | _ => True
     end.
Proof.
  split; [exact (sentinel_outcome env base file key v w Hkey)|].
  exact (Simple_sentinel_outcome env base file key v w Hkey).
Qed.

Lemma X11_sentinel_consumed_witness :
  match fst (Rich.handleResult Demo.env "http://h/" (VStr "out.xva")
               (VObj [("$getFrom", VStr "files/abc")]) Demo.world0) with
  | Ok (VObj _) => False
  | _ => True
  end.
Proof.
  exact (proj1 (X11_sentinel_consumed Demo.env "http://h/" (VStr "out.xva")
                  (VStr "files/abc") "$getFrom" Demo.world0 (or_introl eq_refl))).
Defined.

(** ** Names on the command line *)

Lemma replace_dash_word_plain s : no_dash s -> replace_dash_word s = s.
Proof.
  induction s as [|c rest IH]; [done|]. intros [Hc Hrest].
  simpl. destruct rest as [|d rest']; [done|].
  apply Ascii.eqb_neq in Hc. rewrite Hc. simpl. f_equal. by apply IH.
Qed.

Lemma replace_dash_word_kebab a c b :
  no_dash a -> is_word c = true ->
  replace_dash_word (a +:+ String "-"%char (String c b))
  = a +:+ String (toUpperCase c) (replace_dash_word b).
Proof.
  intros Ha Hc. induction a as [|x a IH].
  - rewrite !append_nil. simpl. by rewrite Hc.
  - destruct Ha as [Hx Ha]. rewrite !append_cons.
    specialize (IH Ha). apply Ascii.eqb_neq in Hx.
    destruct a as [|y a].
    + rewrite append_nil in *. simpl in *. rewrite Hx. simpl. by rewrite IH.
    + rewrite append_cons in *.
      change (replace_dash_word (String x (String y ?s)))
        with (if Ascii.eqb x "-"%char && is_word y
              then String (toUpperCase y) (replace_dash_word s)
              else String x (replace_dash_word (String y s))).
      rewrite Hx. simpl andb. cbv iota. by rewrite IH.
Qed.

Lemma camelCase_no_prefix s :
  String.prefix "--" s = false -> camelCase s = replace_dash_word s.
Proof.
  destruct s as [|c [|d s]]; [done| |].
  - intros _. destruct c as [[] [] [] [] [] [] [] []]; reflexivity.
  - intros Hprefix.
    destruct (Ascii.eqb_spec c "-"%char) as [->|Hc].
    + destruct (Ascii.eqb_spec d "-"%char) as [->|Hd]; [by destruct s|].
      destruct d as [[] [] [] [] [] [] [] []]; try reflexivity. by destruct Hd.
    + destruct c as [[] [] [] [] [] [] [] []]; try reflexivity. by destruct Hc.
Qed.

Lemma no_dash_no_prefix s : no_dash s -> String.prefix "--" s = false.
Proof.
  destruct s as [|c s]; [done|]. intros [Hc _].
  destruct c as [[] [] [] [] [] [] [] []]; try reflexivity. by destruct Hc.
Qed.

Lemma word_not_dash c : is_word c = true -> c <> "-"%char.
Proof. by intros Hc ->. Qed.

Lemma no_prefix_first c s :
  c <> "-"%char -> String.prefix "--" (String c s) = false.
Proof.
  intros Hc. destruct c as [[] [] [] [] [] [] [] []]; try reflexivity.
  by destruct Hc.
Qed.

Lemma no_prefix_second c s :
  c <> "-"%char -> String.prefix "--" (String "-"%char (String c s)) = false.
Proof.
  intros Hc. destruct c as [[] [] [] [] [] [] [] []]; try reflexivity.
  by destruct Hc.
Qed.

(** X12. In the camel-case transform a token without dashes is unchanged,
    with or without a leading [--]; and after a dash-free head, a dash
    followed by a word character becomes that character in upper case, the
    rest being transformed in turn. *)
Theorem X12_camelCase (a b : string) (c : ascii)
    (Hhead : no_dash a) (Hword : is_word c = true) :
  camelCase a = a
  /\ camelCase ("--" +:+ a) = a
  /\ camelCase (a +:+ String "-"%char (String c b))
     = a +:+ String (toUpperCase c) (replace_dash_word b)
  /\ camelCase ("--" +:+ a +:+ String "-"%char (String c b))
     = a +:+ String (toUpperCase c) (replace_dash_word b).
Proof.
  split; [|split; [|split]].
  - rewrite camelCase_no_prefix; [by apply replace_dash_word_plain|].
    by apply no_dash_no_prefix.
  - change (camelCase ("--" +:+ a)) with (replace_dash_word a).
    by apply replace_dash_word_plain.
  - rewrite camelCase_no_prefix; [by apply replace_dash_word_kebab|].
    destruct a as [|x a].
    + rewrite append_nil. apply no_prefix_second. by apply word_not_dash.
    + destruct Hhead as [Hx _]. rewrite append_cons. by apply no_prefix_first.
  - change (camelCase ("--" +:+ a +:+ String "-"%char (String c b)))
      with (replace_dash_word (a +:+ String "-"%char (String c b))).
    by apply replace_dash_word_kebab.
Qed.

Lemma X12_camelCase_witness :
  camelCase "list" = "list"
  /\ camelCase ("--" +:+ "list") = "list"
  /\ camelCase ("list" +:+ String "-"%char (String "c"%char "ommands"))
     = "list" +:+ String (toUpperCase "c"%char) (replace_dash_word "ommands")
  /\ camelCase ("--" +:+ "list" +:+ String "-"%char (String "c"%char "ommands"))
     = "list" +:+ String (toUpperCase "c"%char) (replace_dash_word "ommands").
Proof.
  apply (X12_camelCase "list" "ommands" "c"%char); [|reflexivity].
  simpl. repeat split; discriminate.
Defined.

(** X13. A first token other than [-h] whose camel-case form names neither
    an operation of [exports], nor a property that [exports] has as the
    function it is ([length], [name], [prototype], [arguments], [caller]),
    nor an inherited property, makes [main] hand the whole argument list to
    [call]: the token itself, as typed, is the remote method. A token that
    names one of those properties is not handed to [call]. Both variants. *)
Theorem X13_remote_dispatch (env : Env) (arg0 : string) (rest : list string)
    (Hhelp : arg0 <> "-h")
    (Hown : own (camelCase arg0) exports = None) :
  (camelCase arg0 ∉ function_properties ->
   inherited env (camelCase arg0) = false ->
     Rich.main env (arg0 :: rest) = RunCall (arg0 :: rest)
     /\ Simple.main env (arg0 :: rest) = RunCall (arg0 :: rest))
  /\ (camelCase arg0 ∈ function_properties ->
      Rich.main env (arg0 :: rest) = RunInherited (camelCase arg0) rest
      /\ Simple.main env (arg0 :: rest) = RunInherited (camelCase arg0) rest).
Proof.
  apply String.eqb_neq in Hhelp.
  unfold Rich.main, Simple.main. rewrite Hhelp, Hown. split.
  - intros Hfunction Hinherited.
    by rewrite (bool_decide_eq_false_2 _ Hfunction), Hinherited.
  - intros Hfunction. by rewrite (bool_decide_eq_true_2 _ Hfunction).
Qed.

(** X13 on runs: [--vm-start] is a remote method, [--prototype] is not. *)
Lemma X13_remote_dispatch_witness :
  (Rich.main Demo.env ["--vm-start"; "id=1"] = RunCall ["--vm-start"; "id=1"]
   /\ Simple.main Demo.env ["--vm-start"; "id=1"] = RunCall ["--vm-start"; "id=1"])
  /\ Rich.main Demo.env ["--prototype"; "id=1"] = RunInherited "prototype" ["id=1"]
  /\ Simple.main Demo.env ["prototype"] = RunInherited "prototype" [].
Proof.
  split; [|split].
  - refine (proj1 (X13_remote_dispatch Demo.env "--vm-start" ["id=1"] _ eq_refl)
              _ eq_refl); [discriminate|].
    apply (bool_decide_eq_false_1 _). reflexivity.
  - refine (proj1 (proj2 (X13_remote_dispatch Demo.env "--prototype" ["id=1"]
                            _ eq_refl) _)); [discriminate|].
    apply (bool_decide_eq_true_1 _). reflexivity.
  - refine (proj2 (proj2 (X13_remote_dispatch Demo.env "prototype" []
                            _ eq_refl) _)); [discriminate|].
    apply (bool_decide_eq_true_1 _). reflexivity.
Defined.

(** X14. The base URL of the rich variant never starts with [ws], and
    rewriting it again changes nothing. *)
Theorem X14_base_url_not_ws (xo : Xo) :
  String.prefix "ws" (Rich.baseUrl xo) = false
  /\ Rich.baseUrl {| _url := Rich.baseUrl xo |} = Rich.baseUrl xo.
Proof.
  assert (String.prefix "ws" (Rich.baseUrl xo) = false) as Hnot.
  { destruct xo as [url]. unfold Rich.baseUrl. simpl.
    destruct (String.prefix "ws" url) eqn:Hprefix.
    - apply (prefix_slice "ws") in Hprefix. rewrite Hprefix. reflexivity.
    - by rewrite replace_ws_other. }
  split; [done|]. unfold Rich.baseUrl in *. simpl. by apply replace_ws_other.
Qed.

(** ** Listing objects *)

Section Objects.
Variable env : Env.
Variable lodash_filter : value -> option object -> value.

Lemma Rich_connect_asks w :
  emits listing_request (Rich.connect env) w.
Proof.
  destruct (present (server (config w))) eqn:Hs;
    [|eapply emits_silent; by rewrite Rich_connect_refused, Hs].
  destruct (present (token (config w))) eqn:Ht;
    [|eapply emits_silent; by rewrite Rich_connect_refused, Hs, Ht].
  apply present_Some in Hs as (s & Hs & Hs'), Ht as (t & Ht & Ht').
  pose proof (Rich_connect_run env w s t Hs Ht Hs' Ht') as Hrun. simpl in Hrun.
  unfold emits. rewrite Hrun.
  destruct (xo_open env _); [destruct (xo_signIn env _ t)|];
    eexists; (split; [reflexivity|]); (split; [|done]); by repeat constructor.
Qed.

Lemma Simple_connect_asks w :
  emits listing_request (Simple.connect env) w.
Proof.
  destruct (present (server (config w))) eqn:Hs;
    [|eapply emits_silent; by rewrite Simple_connect_refused, Hs].
  destruct (present (token (config w))) eqn:Ht;
    [|eapply emits_silent; by rewrite Simple_connect_refused, Hs, Ht].
  apply present_Some in Hs as (s & Hs & Hs'), Ht as (t & Ht & Ht').
  pose proof (Simple_connect_run env w s t Hs Ht Hs' Ht') as Hrun. simpl in Hrun.
  unfold emits. rewrite Hrun.
  destruct (xo_call env _ _ _);
    eexists; (split; [reflexivity|]); (split; [|done]);
    repeat constructor; by left.
Qed.

Lemma Rich_listObjects_asks args w :
  emits listing_request (Rich.listObjects env lodash_filter args) w.
Proof.
  unfold Rich.listObjects.
  apply emits_bind; [by eapply emits_silent|]. intros sieve w0 [= _ <-].
  apply emits_bind; [apply Rich_connect_asks|]. intros xo w1 _.
  apply emits_bind; [apply emits_emit; simpl; by right|]. intros _ w2 _.
  apply emits_bind; [by eapply emits_silent|]. intros objects w3 _.
  by eapply emits_silent.
Qed.

Lemma Simple_listObjects_asks args w :
  emits listing_request (Simple.listObjects env lodash_filter args) w.
Proof.
  unfold Simple.listObjects.
  apply emits_bind; [by eapply emits_silent|]. intros sieve w0 [= _ <-].
  apply emits_bind; [apply Simple_connect_asks|]. intros xo w1 _.
  apply emits_bind; [apply emits_emit; simpl; by right|]. intros _ w2 _.
  apply emits_bind; [by eapply emits_silent|]. intros objects w3 _.
  by eapply emits_silent.
Qed.
End Objects.

(** X15. [listObjects] parses its tokens before anything else: when a token
    is refused it fails with the error of the parser, without connecting and
    with the world as it was. Both variants. *)
Theorem X15_listObjects_bad_tokens (env : Env)
    (lodash_filter : value -> option object -> value)
    (arg : string) (args : list string) (w : world) :
  (forall e, Rich.parseParameters env (arg :: args) = Err e ->
     Rich.listObjects env lodash_filter (arg :: args) w = (Err e, w))
  /\ (forall e, Simple.parseParameters (arg :: args) = Err e ->
        Simple.listObjects env lodash_filter (arg :: args) w = (Err e, w)).
Proof.
  split; intros e Hparse.
  - unfold Rich.listObjects. by rewrite Hparse.
  - unfold Simple.listObjects. by rewrite Hparse.
Qed.

(** X16. [listObjects] filters on the client: besides signing in, the only
    thing it asks of the world is one [xo.getAllObjects] without parameters;
    the tokens are never sent, no transfer is made and no file is touched.
    Once connected, its outcome is the failure of that call or the fetched
    objects filtered by the parsed set, [@] included, or by [null] when
    there are no tokens. Both variants. *)
Theorem X16_listObjects_local (env : Env)
    (lodash_filter : value -> option object -> value)
    (args : list string) (w : world) :
  emits listing_request (Rich.listObjects env lodash_filter args) w
  /\ emits listing_request (Simple.listObjects env lodash_filter args) w
  /\ (forall sieve xo w1,
        match args with
        | [] => Ok None
        | _ => Some <$> Rich.parseParameters env args
        end = Ok sieve ->
        Rich.connect env w = (Ok xo, w1) ->
        Rich.listObjects env lodash_filter args w
        = (match xo_call env xo "xo.getAllObjects" ∅ with
           | Ok objects => Ok (lodash_filter objects sieve)
           | Err e => Err e
           end,
           log w1 [EvCall xo "xo.getAllObjects" ∅]))
  /\ (forall sieve xo w1,
        match args with
        | [] => Ok None
        | _ => Some <$> Simple.parseParameters args
        end = Ok sieve ->
        Simple.connect env w = (Ok xo, w1) ->
        Simple.listObjects env lodash_filter args w
        = (match xo_call env xo "xo.getAllObjects" ∅ with
           | Ok objects => Ok (lodash_filter objects sieve)
           | Err e => Err e
           end,
           log w1 [EvCall xo "xo.getAllObjects" ∅])).
Proof.
  split; [apply Rich_listObjects_asks|].
  split; [apply Simple_listObjects_asks|].
  split; intros sieve xo w1 Hsieve Hconnect.
  - unfold Rich.listObjects. rewrite Hsieve.
    cbv [mbind M_bind lift emit mret M_ret]. rewrite Hconnect. simpl.
    by destruct (xo_call env xo _ _).
  - unfold Simple.listObjects. rewrite Hsieve.
    cbv [mbind M_bind lift emit mret M_ret]. rewrite Hconnect. simpl.
    by destruct (xo_call env xo _ _).
Qed.

(** ** Listing commands *)

Lemma units_compare_antisym l1 : forall l2,
  units_compare l2 l1 = CompOpp (units_compare l1 l2).
Proof.
  induction l1 as [|a l1 IH]; intros [|b l2]; simpl; try done.
  rewrite (N.compare_antisym a b).
  destruct (N.compare a b); simpl; [apply IH|done|done].
Qed.

Lemma units_compare_trans l1 : forall l2 l3,
  units_compare l1 l2 <> Gt -> units_compare l2 l3 <> Gt ->
  units_compare l1 l3 <> Gt.
Proof.
  induction l1 as [|a l1 IH]; intros [|b l2] [|c l3]; simpl; try done.
  destruct (N.compare_spec a b) as [->|Hab|Hab]; [| |done].
  - destruct (N.compare b c); [apply IH|done|done].
  - intros _. destruct (N.compare_spec b c) as [<-|Hbc|Hbc]; [| |done].
    + by rewrite (proj2 (N.compare_lt_iff a b) Hab).
    + by rewrite (proj2 (N.compare_lt_iff a c) (N.lt_trans _ _ _ Hab Hbc)).
Qed.

Lemma js_lt_false a b :
  js_lt b a = false <-> units_compare (utf16 a) (utf16 b) <> Gt.
Proof.
  unfold js_lt. rewrite (units_compare_antisym (utf16 a) (utf16 b)).
  destruct (units_compare (utf16 a) (utf16 b)); simpl; split; done.
Qed.

Section SortedListing.
Context {A : Type}.
Implicit Types (x y : string * A) (l : list (string * A)).

Lemma by_name_le x y : (by_name x y <=? 0)%Z = true <-> name_le x y.
Proof.
  unfold by_name, name_le, js_lt.
  rewrite (units_compare_antisym (utf16 (fst x)) (utf16 (fst y))).
  destruct (units_compare (utf16 (fst x)) (utf16 (fst y))); simpl; split; done.
Qed.

Lemma name_le_total x y : name_le x y \/ name_le y x.
Proof.
  unfold name_le, js_lt.
  rewrite (units_compare_antisym (utf16 (fst x)) (utf16 (fst y))).
  destruct (units_compare (utf16 (fst x)) (utf16 (fst y))); simpl; auto.
Qed.

Lemma name_le_trans x y z : name_le x y -> name_le y z -> name_le x z.
Proof.
  unfold name_le. rewrite !js_lt_false. apply units_compare_trans.
Qed.

Lemma sort_insert_perm x l : sort_insert by_name x l ≡ₚ x :: l.
Proof.
  induction l as [|y l IH]; simpl; [done|].
  destruct (by_name x y <=? 0)%Z; [done|].
  rewrite IH. apply Permutation_swap.
Qed.

Lemma Array_sort_perm l : Array_sort by_name l ≡ₚ l.
Proof.
  induction l as [|x l IH]; simpl; [done|].
  by rewrite sort_insert_perm, IH.
Qed.

Lemma sort_insert_sorted x l :
  StronglySorted name_le l -> StronglySorted name_le (sort_insert by_name x l).
Proof.
  induction 1 as [|y l Hsorted IH Hall]; simpl.
  - repeat constructor.
  - destruct (by_name x y <=? 0)%Z eqn:Hcmp.
    + apply by_name_le in Hcmp. constructor; [by constructor|].
      constructor; [done|].
      eapply Forall_impl; [exact Hall|]. intros z Hz. by eapply name_le_trans.
    + assert (name_le y x) as Hyx.
      { destruct (name_le_total x y) as [Hxy|]; [|done].
        apply by_name_le in Hxy. congruence. }
      constructor; [done|].
      rewrite sort_insert_perm. by constructor.
Qed.

Lemma Array_sort_sorted l : StronglySorted name_le (Array_sort by_name l).
Proof.
  induction l as [|x l IH]; simpl; [constructor|].
  by apply sort_insert_sorted.
Qed.
End SortedListing.

(** The order is that of the code units: U+1F600, two surrogates in
    UTF-16, comes before U+E000, though its first byte in UTF-8 is the
    greater one. *)
Example js_lt_code_units :
  let astral := String "240"%char (String "159"%char (String "152"%char
                  (String "128"%char EmptyString))) in
  let private := String "238"%char (String "128"%char (String "128"%char
                  EmptyString)) in
  js_lt astral private = true /\ js_lt private astral = false
  /\ String.ltb astral private = false.
Proof. repeat split. Qed.

(** X17. The listing of commands is sorted: the methods are written in
    ascending order of their names, as [<] compares strings, that is by
    UTF-16 code units; each method of the answer exactly once.
    Without [--json] the simple variant writes exactly that listing,
    whatever else is on the command line. *)
Theorem X17_listing_sorted (style : string -> string) (args : list string)
    (methods : gmap string Method.t) :
  let sorted := Array_sort by_name (pairs methods) in
  StronglySorted name_le sorted
  /\ NoDup (fst <$> sorted)
  /\ (forall name info, (name, info) ∈ sorted <-> methods !! name = Some info)
  /\ listing style methods
     = String.concat "" (List.concat (method_pieces style <$> sorted))
  /\ ("--json" ∉ args ->
      Simple.formatMethodsInfo style args methods = inr (listing style methods)).
Proof.
  intros sorted.
  assert (sorted ≡ₚ map_to_list methods) as Hperm by apply Array_sort_perm.
  split; [apply Array_sort_sorted|].
  split; [rewrite Hperm; apply NoDup_fst_map_to_list|].
  split; [intros name info; rewrite Hperm; apply elem_of_map_to_list|].
  split; [done|].
  intros Hjson. unfold Simple.formatMethodsInfo. by rewrite bool_decide_eq_false_2.
Qed.

Lemma scan_args_from args : forall json patterns,
  foldl (fun state arg =>
           let '(json, patterns) := state in
           if String.eqb arg "--json" then (true, patterns)
           else (json, patterns ++ [arg]))
    (json, patterns) args
  = (json || bool_decide ("--json" ∈ args),
     patterns ++ filter (fun arg => arg <> "--json") args).
Proof.
  induction args as [|arg args IH]; intros json patterns; simpl.
  - rewrite app_nil_r. by destruct json.
  - destruct (String.eqb_spec arg "--json") as [->|Hne].
    + rewrite IH, filter_cons_False by (by intros ?).
      rewrite (bool_decide_eq_true_2 ("--json" ∈ "--json" :: args)) by (by left).
      by rewrite orb_true_r.
    + rewrite IH, filter_cons_True by done.
      rewrite <- app_assoc. f_equal.
      destruct (decide ("--json" ∈ args)) as [Hin|Hnot].
      * rewrite !bool_decide_eq_true_2; [done|by right|done].
      * rewrite !bool_decide_eq_false_2; [done| |done].
        intros [?|?]%elem_of_cons; congruence.
Qed.

Lemma scan_args_spec args :
  Rich.scan_args args
  = (bool_decide ("--json" ∈ args), filter (fun arg => arg <> "--json") args).
Proof. unfold Rich.scan_args. by rewrite scan_args_from. Qed.

(** X18. In the rich variant the arguments of [listCommands] are read in one
    pass: the output is JSON exactly when [--json] is among them, wherever
    it stands, and the patterns are all the other arguments in their
    order. *)
Theorem X18_scan_args (args : list string) :
  Rich.scan_args args
  = (bool_decide ("--json" ∈ args), filter (fun arg => arg <> "--json") args).
Proof. apply scan_args_spec. Qed.

(** X19. With [--json] the methods are returned as data, not as text. The
    simple variant returns all of them, whatever patterns are given. The
    rich variant returns all of them when no pattern is given, and else
    exactly the methods whose names [micromatch] selects among the names of
    the answer. *)
Theorem X19_json_output (style : string -> string)
    (micromatch : list string -> list string -> list string)
    (args : list string) (methods : gmap string Method.t)
    (Hjson : "--json" ∈ args) :
  let patterns := filter (fun arg => arg <> "--json") args in
  Simple.formatMethodsInfo style args methods = inl methods
  /\ (patterns = [] ->
      Rich.formatMethodsInfo style micromatch args methods = inl methods)
  /\ (patterns <> [] ->
      exists selected,
        Rich.formatMethodsInfo style micromatch args methods = inl selected
        /\ forall name info,
             selected !! name = Some info
             <-> methods !! name = Some info
                 /\ name ∈ micromatch (Object_keys methods) patterns).
Proof.
  intros patterns. split; [|split].
  - unfold Simple.formatMethodsInfo. by rewrite bool_decide_eq_true_2.
  - intros Hnone. unfold Rich.formatMethodsInfo.
    rewrite scan_args_spec. fold patterns. rewrite Hnone.
    by rewrite bool_decide_eq_true_2.
  - intros Hsome. unfold Rich.formatMethodsInfo.
    rewrite scan_args_spec. fold patterns.
    rewrite bool_decide_eq_true_2 by done.
    destruct patterns as [|pattern patterns'] eqn:Hpatterns; [done|].
    eexists. split; [reflexivity|].
    intros name info. unfold pick. by rewrite map_lookup_filter_Some.
Qed.

Lemma X19_json_output_witness :
  let methods : gmap string Method.t :=
    {[ "vm.start" := {| Method.params := []; Method.description := None |};
       "host.list" := {| Method.params := []; Method.description := Some "hosts" |} ]} in
  Simple.formatMethodsInfo (fun s => s) ["vm.*"; "--json"] methods = inl methods.
Proof.
  intros methods.
  refine (proj1 (X19_json_output (fun s => s) (fun names _ => names)
                   ["vm.*"; "--json"] methods _)).
  apply elem_of_cons. right. by apply elem_of_cons; left.
Defined.

(** ** Forgetting the credentials *)

(** X20. Provided [config.unset] removes the server URL it is asked to
    remove, [unregister] leaves files and requests as they were, and
    afterwards [connect] and every [call] with accepted parameters fail with
    [NotConfigured] without asking anything of the transport. Both
    variants. *)
Theorem X20_unregister (env : Env)
    (config_unset : list string -> credentials -> credentials) (w : world)
    (Hunset : forall c, server (config_unset ["server"; "token"] c) = None) :
  let rich := snd (Rich.unregister config_unset w) in
  let simple := snd (Simple.unregister config_unset w) in
  (files rich = files w /\ trace rich = trace w)
  /\ (files simple = files w /\ trace simple = trace w)
  /\ Rich.connect env rich = (Err NotConfigured, rich)
  /\ Simple.connect env simple = (Err NotConfigured, simple)
  /\ (forall method args' params,
        Rich.parseParameters env args' = Ok params ->
        Rich.call env (method :: args') rich = (Err NotConfigured, rich))
  /\ (forall method args' params,
        Simple.parseParameters args' = Ok params ->
        Simple.call env (method :: args') simple = (Err NotConfigured, simple)).
Proof.
  intros rich simple.
  assert (present (server (config rich)) = false) as Hrich
    by (simpl; by rewrite Hunset).
  assert (present (server (config simple)) = false) as Hsimple
    by (simpl; by rewrite Hunset).
  split; [done|]. split; [done|].
  split; [by rewrite Rich_connect_refused, Hrich|].
  split; [by rewrite Simple_connect_refused, Hsimple|].
  split; intros method args' params Hparse.
  - rewrite (Rich_call_run env _ _ _ _ Hparse).
    by rewrite Rich_connect_refused, Hrich.
  - rewrite (Simple_call_run env _ _ _ _ Hparse).
    by rewrite Simple_connect_refused, Hsimple.
Qed.

Lemma X20_unregister_witness :
  let unset := fun (keys : list string) (c : credentials) =>
    {| server := if bool_decide ("server" ∈ keys) then None else server c;
       token := if bool_decide ("token" ∈ keys) then None else token c |} in
  let after := snd (Rich.unregister unset Demo.world0) in
  Rich.connect Demo.env after = (Err NotConfigured, after).
Proof.
  intros unset after.
  exact (proj1 (proj2 (proj2 (X20_unregister Demo.env unset Demo.world0
                                 (fun c => eq_refl))))).
Defined.

(** ** The two parsers side by side *)

Section Compatible.
Variable env : Env.

Lemma Simple_matches_Rich arg name val :
  Simple.PARAM_RE arg = Some (name, val) -> Rich.PARAM_RE arg = Some (name, val).
Proof.
  intros Hre. apply Rich_PARAM_RE_spec.
  by apply Simple_PARAM_RE_spec in Hre as [? _].
Qed.

Lemma same_step params arg params' :
  untagged arg ->
  Simple.parseParameter params arg = Ok params' ->
  Rich.parseParameter env params arg = Ok params'.
Proof.
  intros Huntagged Hstep.
  destruct (Simple_step _ _ _ Hstep) as (name & val & v & Hre & Hv & ->).
  pose proof (Huntagged name val Hre) as Hjson.
  pose proof (Simple_matches_Rich _ _ _ Hre) as Hrich.
  unfold Rich.parseParameter, mbind, result_bind. rewrite Hrich, Hjson.
  unfold simple_stored in Hv. subst v. unfold bool_or_string.
  destruct (String.eqb_spec name "@") as [->|_]; [done|]. simpl.
  by destruct (String.eqb val "true"), (String.eqb val "false").
Qed.

Lemma same_forEach args : forall params params',
  Forall untagged args ->
  forEach Simple.parseParameter args params = Ok params' ->
  forEach (Rich.parseParameter env) args params = Ok params'.
Proof.
  induction args as [|arg args IH]; intros params params' Hall; simpl; [done|].
  apply Forall_cons in Hall as [Harg Hall].
  destruct (Simple.parseParameter params arg) as [params1|] eqn:Hstep; [|done].
  rewrite (same_step _ _ _ Harg Hstep). by apply IH.
Qed.
End Compatible.

(** X21. The rich parser extends the simple one: a list of tokens that the
    simple variant accepts, none of whose values starts with [json:], is
    accepted by the rich variant with the very same parsed set. *)
Theorem X21_rich_extends_simple (env : Env) (args : list string)
    (params : object)
    (Huntagged : Forall untagged args)
    (Hsimple : Simple.parseParameters args = Ok params) :
  Rich.parseParameters env args = Ok params.
Proof. by apply same_forEach. Qed.

Lemma X21_rich_extends_simple_witness :
  Rich.parseParameters Demo.env ["id=1"; "force=true"; "@=disk.xva"]
  = Ok {[ "id" := VStr "1"; "force" := VBool true; "@" := VStr "disk.xva" ]}.
Proof.
  apply X21_rich_extends_simple; [|reflexivity].
  repeat (apply Forall_cons_2; [by intros name val [= <- <-]|]).
  apply Forall_nil_2.
Defined.

(** X22. In the simple variant the order of two neighbouring tokens with
    different names does not matter: swapping them gives the same outcome,
    parsed set or error. *)
Theorem X22_order_of_names (before after : list string) (t1 t2 : string)
    (name1 val1 name2 val2 : string)
    (H1 : Simple.PARAM_RE t1 = Some (name1, val1))
    (H2 : Simple.PARAM_RE t2 = Some (name2, val2))
    (Hnames : name1 <> name2) :
  Simple.parseParameters (before ++ t1 :: t2 :: after)
  = Simple.parseParameters (before ++ t2 :: t1 :: after).
Proof.
  unfold Simple.parseParameters. rewrite !forEach_app.
  destruct (forEach Simple.parseParameter before ∅) as [params|]; [|done].
  simpl.
  repeat (first [rewrite (Simple_plain _ _ _ _ H1)
                |rewrite (Simple_plain _ _ _ _ H2)]; cbv iota).
  by rewrite (assign_comm name1 name2).
Qed.

Lemma X22_order_of_names_witness :
  Simple.parseParameters (["a=1"] ++ "b=2" :: "c=true" :: ["d"])
  = Simple.parseParameters (["a=1"] ++ "c=true" :: "b=2" :: ["d"]).
Proof.
  apply (X22_order_of_names ["a=1"] ["d"] "b=2" "c=true" "b" "2" "c" "true");
    [reflexivity|reflexivity|discriminate].
Defined.

(** X23. What a download wrote is what an upload of the same file sends:
    after [$getFrom] into a file, [$sendTo] from that file POSTs exactly
    the bytes that arrived, with their number as [content-length]. So it is
    in the simple variant, and in the rich variant when the response of the
    download declared no length; when it declared one, the rich variant
    left the file empty and the upload sends nothing, with [0] as
    [content-length]. *)
Theorem X23_download_then_upload (env : Env) (base from to file : string)
    (w : world) :
  let received := fst (http_get env (resolveUrl env base from)) in
  let w1 := snd (Simple.handleResult env base (VStr file)
                   (VObj [("$getFrom", VStr from)]) w) in
  let r1 := snd (Rich.handleResult env base (VStr file)
                   (VObj [("$getFrom", VStr from)]) w) in
  let url := resolveUrl env base to in
  let size := Z.of_nat (String.length received) in
  Simple.handleResult env base (VStr file) (VObj [("$sendTo", VStr to)]) w1
  = (VStr <$> http_post env url size received,
     log w1 [EvStat file; EvCreateReadStream file; EvPost url size received])
  /\ (http_declares_length env (resolveUrl env base from) = false ->
      Rich.handleResult env base (VStr file) (VObj [("$sendTo", VStr to)]) r1
      = (VStr <$> http_post env url size received,
         log r1 [EvStat file; EvCreateReadStream file; EvPost url size received]))
  /\ (http_declares_length env (resolveUrl env base from) = true ->
      Rich.handleResult env base (VStr file) (VObj [("$sendTo", VStr to)]) r1
      = (VStr <$> http_post env url 0 "",
         log r1 [EvStat file; EvCreateReadStream file; EvPost url 0 ""])).
Proof.
  intros received w1 r1 url size.
  split; [|split].
  - assert (files w1 !! file = Some received) as Hfile.
    { subst w1. rewrite get_from. simpl. apply lookup_insert_eq. }
    rewrite handleResult_same by discriminate. by rewrite send_to, Hfile.
  - intros Hlength.
    assert (files r1 !! file = Some received) as Hfile.
    { subst r1. rewrite Rich_get_from. cbv zeta. rewrite Hlength. simpl.
      apply lookup_insert_eq. }
    by rewrite send_to, Hfile.
  - intros Hlength.
    assert (files r1 !! file = Some "") as Hfile.
    { subst r1. rewrite Rich_get_from. cbv zeta. rewrite Hlength. simpl.
      apply lookup_insert_eq. }
    by rewrite send_to, Hfile.
Qed.
